(** * Amp: the YouTube AI Music Agent browser extension

    A shallow embedding of the extension's three scripts

    - the background script ([processCommand], its message listener and
      the listener of the installation),
    - the content script ([waitForYouTube], [createCommandBox],
      [handleCommand], [updateStatus], [searchAndPlayYouTube] and the
      handlers of [setupEventListeners]),
    - the popup script (the save handler and [showStatus]),

    together with the properties of the command pipeline that the
    specification states about them, and further properties of the
    scripts. *)

From Stdlib Require Import ZArith NArith List String Ascii Bool Lia.
From Stdlib Require Import Numbers.DecimalString.
From Stdlib Require Import Floats.
From stdpp Require Import base strings list gmap.

Set Warnings "-register-all".

(* ===================================================================== *)
(** ** JavaScript data *)
(* ===================================================================== *)

Module JS.

(** A JavaScript string is a sequence of UTF-16 code units. *)
Abbreviation jsstring := (list N).

Local Open Scope N_scope.

(** *** String literals

    The scripts are UTF-8 text; [js] turns a literal of the source into the
    code units the engine holds for it. *)

Fixpoint utf8_decode (bs : list N) : list N :=
  match bs with
  | [] => []
  | b0 :: r0 =>
    if b0 <? 0x80 then b0 :: utf8_decode r0
    else
      match r0 with
      | [] => []
      | b1 :: r1 =>
        if b0 <? 0xE0
        then (b0 mod 0x20 * 0x40 + b1 mod 0x40) :: utf8_decode r1
        else
          match r1 with
          | [] => []
          | b2 :: r2 =>
            if b0 <? 0xF0
            then (b0 mod 0x10 * 0x1000 + b1 mod 0x40 * 0x40 + b2 mod 0x40)
                   :: utf8_decode r2
            else
              match r2 with
              | [] => []
              | b3 :: r3 =>
                (b0 mod 8 * 0x40000 + b1 mod 0x40 * 0x1000
                 + b2 mod 0x40 * 0x40 + b3 mod 0x40) :: utf8_decode r3
              end
          end
      end
  end.

Definition utf16_encode (cp : N) : list N :=
  if cp <? 0x10000 then [cp]
  else [0xD800 + (cp - 0x10000) / 0x400; 0xDC00 + (cp - 0x10000) mod 0x400].

Definition js (s : string) : jsstring :=
  flat_map utf16_encode (utf8_decode (List.map N_of_ascii (list_ascii_of_string s))).

(** The double quote, which a literal of this file cannot hold. *)
Definition dquote : jsstring := [34].

(** *** [String.prototype.trim], [startsWith], [includes] *)

(** ECMAScript's WhiteSpace and LineTerminator code points, all of them in
    the Basic Multilingual Plane. *)
Definition isWhiteSpace (c : N) : bool :=
  (c =? 0x09) || (c =? 0x0A) || (c =? 0x0B) || (c =? 0x0C) || (c =? 0x0D)
  || (c =? 0x20) || (c =? 0xA0) || (c =? 0x1680)
  || ((0x2000 <=? c) && (c <=? 0x200A))
  || (c =? 0x2028) || (c =? 0x2029) || (c =? 0x202F) || (c =? 0x205F)
  || (c =? 0x3000) || (c =? 0xFEFF).

Fixpoint trimStart (s : jsstring) : jsstring :=
  match s with
  | [] => []
  | c :: r => if isWhiteSpace c then trimStart r else s
  end.

Definition trimEnd (s : jsstring) : jsstring := rev (trimStart (rev s)).

Definition trim (s : jsstring) : jsstring := trimEnd (trimStart s).

Fixpoint startsWith (s p : jsstring) {struct p} : bool :=
  match p, s with
  | [], _ => true
  | _ :: _, [] => false
  | a :: p', b :: s' => (a =? b) && startsWith s' p'
  end.

Fixpoint includes (s sub : jsstring) : bool :=
  startsWith s sub
  || match s with
     | [] => false
     | _ :: r => includes r sub
     end.

(** *** Values *)

(** The values that cross the extension's boundaries: what [JSON.parse]
    and the message channel produce, and [undefined] for what a property
    read misses.  An object lists its fields in the order the engine
    enumerates them (for the keys of the scripts, the order of insertion);
    a read returns the first binding of the key. *)
Inductive value : Type :=
  | VUndefined
  | VNull
  | VBool (b : bool)
  | VNum (x : float)
  | VStr (s : jsstring)
  | VArr (items : list value)
  | VObj (fields : list (jsstring * value)).

(** Completion of an evaluation: a value, or a thrown [Error] of which only
    the [message] is ever observed. *)
Inductive exn (A : Type) : Type :=
  | Ret (a : A)
  | Throw (message : jsstring).
Arguments Ret {A} a.
Arguments Throw {A} message.

(** [ToBoolean]: what [if (v)], [!v] and [v || w] test. *)
Definition ToBoolean (v : value) : bool :=
  match v with
  | VUndefined | VNull => false
  | VBool b => b
  | VNum x => negb (PrimFloat.eqb x PrimFloat.zero || PrimFloat.is_nan x)
  | VStr s => match s with [] => false | _ => true end
  | VArr _ | VObj _ => true
  end.

Definition isNullish (v : value) : bool :=
  match v with
  | VUndefined | VNull => true
  | _ => false
  end.

Fixpoint lookup_field (k : jsstring) (fields : list (jsstring * value)) : option value :=
  match fields with
  | [] => None
  | (k', v) :: rest => if bool_decide (k = k') then Some v else lookup_field k rest
  end.

Fixpoint join (sep : jsstring) (parts : list jsstring) : jsstring :=
  match parts with
  | [] => []
  | [p] => p
  | p :: rest => p ++ sep ++ join sep rest
  end.

(** *** [Number.prototype.toString] *)

(** The decimal digits of a natural number. *)
Definition decimal (n : Z) : jsstring :=
  js (NilZero.string_of_uint (N.to_uint (Z.to_N n))).

(** The property key of the index [i]. *)
Definition index_key (i : nat) : jsstring := decimal (Z.of_nat i).

Section NumberToString.
Local Open Scope Z_scope.

(** [s × 10^p] against [b × 2^e], exactly. *)
Definition compare_scaled (s p b e : Z) : comparison :=
  (s * 10 ^ Z.max p 0 * 2 ^ Z.max (- e) 0 ?= b * 2 ^ Z.max e 0 * 10 ^ Z.max (- p) 0).

(** The least [n], from [n] on, with [b × 2^e < 10^n]; the search starts
    just below it and needs a few steps. *)
Fixpoint magnitude (fuel : nat) (n b e : Z) : Z :=
  match fuel with
  | O => n
  | S fuel' =>
    match compare_scaled 1 n b e with
    | Gt => n
    | _ => magnitude fuel' (n + 1) b e
    end
  end.

(** A decimal is within a bound of the rounding interval when it is on the
    right [side] of it, or on it and the bound is [inclusive]. *)
Definition within (inclusive : bool) (c side : comparison) : bool :=
  match c, side with
  | Eq, _ => inclusive
  | Lt, Lt | Gt, Gt => true
  | _, _ => false
  end.

(** The digits [s] and the exponent [n] of the shortest decimal
    [s × 10^(n - k)] ([k] the number of digits of [s]) that reads back as
    the double [x × 2^e], whose rounding interval is from [lo × 2^e] to
    [hi × 2^e], and the closest to it among the shortest; [n0] is the
    magnitude of the double.  Seventeen digits always do. *)
Fixpoint shortest (fuel : nat) (k n0 x lo hi e : Z) (inclusive : bool) : Z * Z :=
  match fuel with
  | O => (x, 0)
  | S fuel' =>
    let p := n0 - k in
    let down :=
      (x * 2 ^ Z.max e 0 * 10 ^ Z.max (- p) 0) / (2 ^ Z.max (- e) 0 * 10 ^ Z.max p 0) in
    let up := down + 1 in
    let pick (s : Z) := if s =? 10 ^ k then (1, n0 + 1) else (s, n0) in
    match within inclusive (compare_scaled down p lo e) Gt,
          within inclusive (compare_scaled up p hi e) Lt with
    | true, false => pick down
    | false, true => pick up
    | true, true =>
      match compare_scaled (down + up) p (2 * x) e with
      | Lt => pick up
      | Gt => pick down
      | Eq => if Z.even down then pick down else pick up
      end
    | false, false => shortest fuel' (k + 1) n0 x lo hi e inclusive
    end
  end.

Definition zeros (n : Z) : jsstring := repeat 48%N (Z.to_nat n).

(** The notation of the decimal [0.digits × 10^n]. *)
Definition notation (digits : jsstring) (n : Z) : jsstring :=
  let k := Z.of_nat (length digits) in
  if (k <=? n) && (n <=? 21) then digits ++ zeros (n - k)
  else if (0 <? n) && (n <=? 21)
  then take (Z.to_nat n) digits ++ js "." ++ drop (Z.to_nat n) digits
  else if (-6 <? n) && (n <=? 0) then js "0." ++ zeros (- n) ++ digits
  else
    take 1 digits
    ++ (if k =? 1 then [] else js "." ++ drop 1 digits)
    ++ js "e" ++ (if 0 <=? n - 1 then js "+" else js "-")
    ++ decimal (Z.abs (n - 1)).

Definition Number_toString (x : float) : jsstring :=
  match Prim2SF x with
  | S754_nan => js "NaN"
  | S754_zero _ => js "0"
  | S754_infinity false => js "Infinity"
  | S754_infinity true => js "-Infinity"
  | S754_finite sign m e =>
    let m := Z.pos m in
    let boundary := (m =? 2 ^ 52) && (-1074 <? e) in
    let '(s, n) :=
      shortest 17 1
        (magnitude 8 ((Z.log2 m + e) * 1233 / 4096 - 1) (4 * m) (e - 2))
        (4 * m) (if boundary then 4 * m - 1 else 4 * m - 2) (4 * m + 2)
        (e - 2) (Z.even m) in
    (if sign then js "-" else []) ++ notation (decimal s) n
  end.

End NumberToString.

(** [ToString] on the values above, which is also how [+] turns a value
    into a string to append it to one.  An object is converted by the
    [toString] it inherits, unless it has a property [toString] of its
    own: no value here is a function, so that property cannot be called,
    the [valueOf] the object inherits returns the object itself, and the
    conversion throws a [TypeError]: that is [None].  An array joins the
    conversions of its elements, with nothing for [undefined] and
    [null]. *)
Fixpoint ToString (v : value) : option jsstring :=
  match v with
  | VUndefined => Some (js "undefined")
  | VNull => Some (js "null")
  | VBool true => Some (js "true")
  | VBool false => Some (js "false")
  | VNum x => Some (Number_toString x)
  | VStr s => Some s
  | VArr items =>
      join (js ",") <$>
        (fix elements (l : list value) : option (list jsstring) :=
           match l with
           | [] => Some []
           | i :: r =>
             match (if isNullish i then Some [] else ToString i), elements r with
             | Some s, Some ss => Some (s :: ss)
             | _, _ => None
             end
           end) items
  | VObj fields =>
      match lookup_field (js "toString") fields with
      | Some _ => None
      | None => Some (js "[object Object]")
      end
  end.

(** *** [JSON.stringify] *)

Definition isHighSurrogate (c : N) : bool := (0xD800 <=? c) && (c <=? 0xDBFF).
Definition isLowSurrogate (c : N) : bool := (0xDC00 <=? c) && (c <=? 0xDFFF).

Definition hexDigit (upper : bool) (d : N) : N :=
  if d <? 10 then 0x30 + d else (if upper then 0x41 else 0x61) + (d - 10).

Definition unicode_escape (c : N) : jsstring :=
  js "\u" ++ [hexDigit false (c / 0x1000); hexDigit false (c / 0x100 mod 0x10);
              hexDigit false (c / 0x10 mod 0x10); hexDigit false (c mod 0x10)].

Fixpoint JSON_escape (s : jsstring) : jsstring :=
  match s with
  | [] => []
  | c :: r =>
    if c =? 0x08 then js "\b" ++ JSON_escape r
    else if c =? 0x09 then js "\t" ++ JSON_escape r
    else if c =? 0x0A then js "\n" ++ JSON_escape r
    else if c =? 0x0C then js "\f" ++ JSON_escape r
    else if c =? 0x0D then js "\r" ++ JSON_escape r
    else if c =? 0x22 then js "\" ++ dquote ++ JSON_escape r
    else if c =? 0x5C then js "\\" ++ JSON_escape r
    else if c <? 0x20 then unicode_escape c ++ JSON_escape r
    else if isHighSurrogate c then
      match r with
      | d :: r' =>
        if isLowSurrogate d then c :: d :: JSON_escape r'
        else unicode_escape c ++ JSON_escape r
      | [] => unicode_escape c
      end
    else if isLowSurrogate c then unicode_escape c ++ JSON_escape r
    else c :: JSON_escape r
  end.

Definition JSON_quote (s : jsstring) : jsstring := dquote ++ JSON_escape s ++ dquote.

(** The text of a value, [None] for [undefined]; an object lists its
    fields in the order of its list. *)
Fixpoint JSON_serialize (v : value) : option jsstring :=
  match v with
  | VUndefined => None
  | VNull => Some (js "null")
  | VBool true => Some (js "true")
  | VBool false => Some (js "false")
  | VNum x =>
      Some (match Prim2SF x with
            | S754_nan | S754_infinity _ => js "null"
            | _ => Number_toString x
            end)
  | VStr s => Some (JSON_quote s)
  | VArr items =>
      Some (js "[" ++
            join (js ",")
              ((fix elements (l : list value) : list jsstring :=
                  match l with
                  | [] => []
                  | i :: r => default (js "null") (JSON_serialize i) :: elements r
                  end) items)
            ++ js "]")
  | VObj fields =>
      Some (js "{" ++
            join (js ",")
              ((fix members (l : list (jsstring * value)) : list jsstring :=
                  match l with
                  | [] => []
                  | (k, w) :: r =>
                    match JSON_serialize w with
                    | Some t => (JSON_quote k ++ js ":" ++ t) :: members r
                    | None => members r
                    end
                  end) fields)
            ++ js "}")
  end.

(** [JSON.stringify(v)] for a [v] that is not [undefined]. *)
Definition JSON_stringify (v : value) : jsstring := default [] (JSON_serialize v).

(** What the engine decides and the language does not: the texts of its
    own errors. *)
Record Engine : Type := {
  (** [TypeError] of reading property [k] of [v], [undefined] or [null] *)
  TypeError_nullish : value -> jsstring -> jsstring;
  (** [TypeError] of calling [callee(...)] when [callee] is not a function *)
  TypeError_not_a_function : jsstring -> jsstring;
  (** [URIError] of [encodeURIComponent] on an unpaired surrogate *)
  URIError_malformed : jsstring;
  (** [TypeError] of converting to a string an object that has no
      primitive value *)
  TypeError_not_primitive : jsstring
}.

Section WithEngine.
Variable E : Engine.

(** [v.k] for a property name [k] that is neither an index nor [length]
    nor a member of a built-in prototype (the names the scripts read:
    [error], [message], [content], [text], [success], [searchQuery]). *)
Definition Get (v : value) (k : jsstring) : exn value :=
  match v with
  | VUndefined | VNull => Throw (TypeError_nullish E v k)
  | VObj fields => Ret (default VUndefined (lookup_field k fields))
  | _ => Ret VUndefined
  end.

(** [v[i]] for a literal index [i]. *)
Definition GetIndex (v : value) (i : nat) : exn value :=
  match v with
  | VUndefined | VNull => Throw (TypeError_nullish E v (index_key i))
  | VArr items => Ret (nth i items VUndefined)
  | VStr s => Ret (match nth_error s i with Some c => VStr [c] | None => VUndefined end)
  | VObj fields => Ret (default VUndefined (lookup_field (index_key i) fields))
  | _ => Ret VUndefined
  end.

(** [ToString] as an evaluation, which returns or throws. *)
Definition ToString_or_throw (v : value) : exn jsstring :=
  match ToString v with
  | Some s => Ret s
  | None => Throw (TypeError_not_primitive E)
  end.

(** [v.trim()], where [callee] is the text of [v.trim] in the source: only
    a string has the method. *)
Definition call_trim (callee : jsstring) (v : value) : exn jsstring :=
  match v with
  | VStr s => Ret (trim s)
  | VUndefined | VNull => Throw (TypeError_nullish E v (js "trim"))
  | _ => Throw (TypeError_not_a_function E callee)
  end.

End WithEngine.

End JS.

(* ===================================================================== *)
(** ** Effects: state passing with exceptions *)
(* ===================================================================== *)

Module Eff.
Import JS.

(** A computation over a store [S]: it ends with a value or a thrown error,
    and what it did to the store before throwing stays done. *)
Definition Eff (S A : Type) : Type := S -> exn A * S.

Definition ret {S A} (a : A) : Eff S A := fun s => (Ret a, s).

Definition throw {S A} (message : jsstring) : Eff S A := fun s => (Throw message, s).

Definition lift {S A} (c : exn A) : Eff S A := fun s => (c, s).

Definition bind {S A B} (m : Eff S A) (k : A -> Eff S B) : Eff S B :=
  fun s =>
    match m s with
    | (Ret a, s') => k a s'
    | (Throw e, s') => (Throw e, s')
    end.

(** [try { body } catch (error) { handler error.message }] *)
Definition try_catch {S A} (body : Eff S A) (handler : jsstring -> Eff S A) : Eff S A :=
  fun s =>
    match body s with
    | (Ret a, s') => (Ret a, s')
    | (Throw e, s') => handler e s'
    end.

Definition modify {S} (f : S -> S) : Eff S unit := fun s => (Ret tt, f s).

Definition gets {S A} (f : S -> A) : Eff S A := fun s => (Ret (f s), s).

Notation "'let*' x ':=' m 'in' k" := (bind m (fun x => k))
  (at level 10, x name, m at level 100, k at level 200).
Notation "m ';;' k" := (bind m (fun _ => k))
  (at level 100, k at level 200, right associativity).

End Eff.

(* ===================================================================== *)
(** ** The background script *)
(* ===================================================================== *)

Module Background.
Import JS Eff.

(** The request [fetch] is called with. *)
Record Request : Type := {
  url : jsstring;
  method : jsstring;
  headers : list (jsstring * jsstring);
  body : jsstring
}.

(** What the script reads of a [Response]: [response.ok], and the outcome
    of its one call of [response.json()]. *)
Record Response : Type := {
  ok : bool;
  json : exn value
}.

(** The outcomes of the calls the script makes outside itself:
    [chrome.storage.sync.get(['apiKey'])] (the store holds strings: the
    popup is its only writer) and [fetch], which rejects or resolves. *)
Record Upstream : Type := {
  storage_get : exn (gmap string jsstring);
  fetch : Request -> exn Response
}.

(** The message the content script sends. *)
Record Message : Type := {
  type : jsstring;
  command : jsstring
}.

Section WithEngine.
Variable E : Engine.

Definition quoted (s : jsstring) : jsstring := dquote ++ s ++ dquote.

Definition newline : jsstring := [10%N].

Definition example (said query : string) : jsstring :=
  js "User: " ++ quoted (js said) ++ js " → " ++ quoted (js query).

(** The template literal of the user message. *)
Definition prompt (command : jsstring) : jsstring :=
  js "You are a YouTube music assistant. The user said: " ++ quoted command
  ++ newline ++ newline
  ++ js "Extract the music search query from this command. Respond with ONLY the search query text, nothing else."
  ++ newline ++ newline
  ++ js "Examples:" ++ newline
  ++ example "play lofi hip hop" "lofi hip hop" ++ newline
  ++ example "play something energetic" "energetic music" ++ newline
  ++ example "I want to hear jazz" "jazz music" ++ newline
  ++ example "play Taylor Swift" "Taylor Swift" ++ newline
  ++ newline
  ++ js "Now extract the search query:".

Definition api_request (apiKey command : jsstring) : Request :=
  {| url := js "https://api.anthropic.com/v1/messages";
     method := js "POST";
     headers :=
       [ (js "Content-Type", js "application/json");
         (js "x-api-key", apiKey);
         (js "anthropic-version", js "2023-06-01") ];
     body :=
       JSON_stringify
         (VObj
            [ (js "model", VStr (js "claude-sonnet-4-5-20250929"));
              (js "max_tokens", VNum 200%float);
              (js "messages",
               VArr [ VObj [ (js "role", VStr (js "user"));
                             (js "content", VStr (prompt command)) ] ]) ]) |}.

(** The store of the background script is the log of the requests it has
    put on the network. *)
Definition call_fetch (up : Upstream) (req : Request) : Eff (list Request) Response :=
  fun log => (fetch up req, log ++ [req]).

(** The two shapes of object the script answers with. *)
Definition failure (message : jsstring) : value :=
  VObj [ (js "success", VBool false); (js "error", VStr message) ].

Definition found (searchQuery : jsstring) : value :=
  VObj [ (js "success", VBool true);
         (js "message", VStr (js "🎵 Searching for: " ++ searchQuery));
         (js "searchQuery", VStr searchQuery) ].

Definition no_key_message : jsstring :=
  js "API key not set. Click the extension icon to configure.".

(** The [try] block of [processCommand]. *)
Definition processCommand_try (up : Upstream) (command : jsstring)
  : Eff (list Request) value :=
  let* store := lift (storage_get up) in
  match store !! "apiKey" with
  | None | Some [] =>
      ret (failure no_key_message)
  | Some apiKey =>
      let* response := call_fetch up (api_request apiKey command) in
      if negb (ok response) then
        let* error := lift (json response) in
        (* error.error?.message || 'API request failed' *)
        let* inner := lift (Get E error (js "error")) in
        let* message :=
          (if isNullish inner then ret VUndefined
           else lift (Get E inner (js "message"))) in
        (* new Error(...) converts its argument to a string *)
        let* text :=
          lift (ToString_or_throw E (if ToBoolean message then message
                                     else VStr (js "API request failed"))) in
        throw text
      else
        let* data := lift (json response) in
        let* content := lift (Get E data (js "content")) in
        let* first := lift (GetIndex E content 0) in
        let* text := lift (Get E first (js "text")) in
        let* searchQuery :=
          lift (call_trim E (js "data.content[0].text.trim") text) in
        ret (found searchQuery)
  end.

Definition processCommand (up : Upstream) (command : jsstring)
  : Eff (list Request) value :=
  try_catch (processCommand_try up command)
    (fun error_message => ret (failure error_message)).

(** Reading the reply, on its own: [(await response.json()).content[0].text.trim()]. *)
Definition searchQuery_of (response : Response) : exn jsstring :=
  match json response with
  | Throw m => Throw m
  | Ret data =>
    match Get E data (js "content") with
    | Throw m => Throw m
    | Ret content =>
      match GetIndex E content 0 with
      | Throw m => Throw m
      | Ret first =>
        match Get E first (js "text") with
        | Throw m => Throw m
        | Ret text => call_trim E (js "data.content[0].text.trim") text
        end
      end
    end
  end.

(** The [chrome.runtime.onMessage] listener: the response it sends, if any. *)
Definition onMessage (up : Upstream) (request : Message)
  : Eff (list Request) (option value) :=
  if bool_decide (type request = js "PROCESS_COMMAND") then
    let* result :=
      try_catch (processCommand up (command request))
        (fun error_message => ret (failure error_message)) in
    ret (Some result)
  else ret None.


End WithEngine.

End Background.

(* ===================================================================== *)
(** ** The content script *)
(* ===================================================================== *)

Module Content.
Import JS Eff.
Export Background.

(** *** [encodeURIComponent] *)

Local Open Scope N_scope.

Definition isUnreserved (c : N) : bool :=
  ((0x41 <=? c) && (c <=? 0x5A)) || ((0x61 <=? c) && (c <=? 0x7A))
  || ((0x30 <=? c) && (c <=? 0x39))
  || existsb (N.eqb c) (js "-_.!~*'()").

Definition percent (byte : N) : jsstring :=
  [0x25; hexDigit true (byte / 16); hexDigit true (byte mod 16)].

Definition utf8_encode (cp : N) : list N :=
  if cp <? 0x80 then [cp]
  else if cp <? 0x800 then [0xC0 + cp / 0x40; 0x80 + cp mod 0x40]
  else if cp <? 0x10000
  then [0xE0 + cp / 0x1000; 0x80 + cp / 0x40 mod 0x40; 0x80 + cp mod 0x40]
  else [0xF0 + cp / 0x40000; 0x80 + cp / 0x1000 mod 0x40;
        0x80 + cp / 0x40 mod 0x40; 0x80 + cp mod 0x40].

Definition escape (cp : N) : jsstring :=
  if isUnreserved cp then [cp] else flat_map percent (utf8_encode cp).

(** [None] is the [URIError] of an unpaired surrogate. *)
Fixpoint encodeURIComponent (s : jsstring) : option jsstring :=
  match s with
  | [] => Some []
  | c :: r =>
    if isHighSurrogate c then
      match r with
      | d :: r' =>
        if isLowSurrogate d
        then option_map (app (escape ((c - 0xD800) * 0x400 + (d - 0xDC00) + 0x10000)))
                        (encodeURIComponent r')
        else None
      | [] => None
      end
    else if isLowSurrogate c then None
    else option_map (app (escape c)) (encodeURIComponent r)
  end.

Local Close Scope N_scope.

(** *** The page *)

(** An [a#video-title] link inside a [ytd-video-renderer]. *)
Record Video : Type := {
  textContent : jsstring;
  href : jsstring
}.

(** The callbacks the script hands to [setTimeout]. *)
Inductive Callback : Type :=
  | ResetStatus        (* updateStatus, 5000 ms *)
  | PlayFirstVideo     (* searchAndPlayYouTube, 1500 ms *)
  | Welcome.           (* initialisation, 1000 ms *)

Record Timer : Type := {
  callback : Callback;
  delay : N
}.

(** What the script reads and writes of its page: the command box, the
    location, the result links of the document (in document order), its
    pending timers, the messages it has sent to the background script and
    the links it has clicked. *)
Record Page : Type := {
  status_textContent : jsstring;
  status_className : jsstring;
  input_value : jsstring;
  input_focused : bool;
  content_display : jsstring;
  toggle_textContent : jsstring;
  location_href : jsstring;
  assigned_href : list jsstring;
  videos : list Video;
  timers : list Timer;
  sent : list Message;
  clicked : list Video
}.

Definition set_status (text className : jsstring) (p : Page) : Page :=
  {| status_textContent := text; status_className := className;
     input_value := input_value p; input_focused := input_focused p;
     content_display := content_display p; toggle_textContent := toggle_textContent p;
     location_href := location_href p; assigned_href := assigned_href p;
     videos := videos p; timers := timers p; sent := sent p; clicked := clicked p |}.

Definition set_input_value (v : jsstring) (p : Page) : Page :=
  {| status_textContent := status_textContent p; status_className := status_className p;
     input_value := v; input_focused := input_focused p;
     content_display := content_display p; toggle_textContent := toggle_textContent p;
     location_href := location_href p; assigned_href := assigned_href p;
     videos := videos p; timers := timers p; sent := sent p; clicked := clicked p |}.

Definition set_input_focused (b : bool) (p : Page) : Page :=
  {| status_textContent := status_textContent p; status_className := status_className p;
     input_value := input_value p; input_focused := b;
     content_display := content_display p; toggle_textContent := toggle_textContent p;
     location_href := location_href p; assigned_href := assigned_href p;
     videos := videos p; timers := timers p; sent := sent p; clicked := clicked p |}.

Definition set_panel (display toggle : jsstring) (p : Page) : Page :=
  {| status_textContent := status_textContent p; status_className := status_className p;
     input_value := input_value p; input_focused := input_focused p;
     content_display := display; toggle_textContent := toggle;
     location_href := location_href p; assigned_href := assigned_href p;
     videos := videos p; timers := timers p; sent := sent p; clicked := clicked p |}.

(** [window.location.href = u]: the assignment asks for a navigation; the
    location read back changes when the browser commits it. *)
Definition assign_href (u : jsstring) (p : Page) : Page :=
  {| status_textContent := status_textContent p; status_className := status_className p;
     input_value := input_value p; input_focused := input_focused p;
     content_display := content_display p; toggle_textContent := toggle_textContent p;
     location_href := location_href p; assigned_href := assigned_href p ++ [u];
     videos := videos p; timers := timers p; sent := sent p; clicked := clicked p |}.

Definition set_document (u : jsstring) (vs : list Video) (p : Page) : Page :=
  {| status_textContent := status_textContent p; status_className := status_className p;
     input_value := input_value p; input_focused := input_focused p;
     content_display := content_display p; toggle_textContent := toggle_textContent p;
     location_href := u; assigned_href := assigned_href p;
     videos := vs; timers := timers p; sent := sent p; clicked := clicked p |}.

Definition set_timers (ts : list Timer) (p : Page) : Page :=
  {| status_textContent := status_textContent p; status_className := status_className p;
     input_value := input_value p; input_focused := input_focused p;
     content_display := content_display p; toggle_textContent := toggle_textContent p;
     location_href := location_href p; assigned_href := assigned_href p;
     videos := videos p; timers := ts; sent := sent p; clicked := clicked p |}.

Definition setTimeout (cb : Callback) (ms : N) (p : Page) : Page :=
  set_timers (timers p ++ [{| callback := cb; delay := ms |}]) p.

Definition sendMessage (m : Message) (p : Page) : Page :=
  {| status_textContent := status_textContent p; status_className := status_className p;
     input_value := input_value p; input_focused := input_focused p;
     content_display := content_display p; toggle_textContent := toggle_textContent p;
     location_href := location_href p; assigned_href := assigned_href p;
     videos := videos p; timers := timers p; sent := sent p ++ [m]; clicked := clicked p |}.

Definition click (v : Video) (p : Page) : Page :=
  {| status_textContent := status_textContent p; status_className := status_className p;
     input_value := input_value p; input_focused := input_focused p;
     content_display := content_display p; toggle_textContent := toggle_textContent p;
     location_href := location_href p; assigned_href := assigned_href p;
     videos := videos p; timers := timers p; sent := sent p; clicked := clicked p ++ [v] |}.

(** [waitForYouTube]: the callback of its interval runs every 500 ms, and
    [polls] tells of each run whether the document then holds a [ytd-app]
    element.  The first run that finds one clears the interval and resolves
    the promise: the result is the number of runs made until then, [None]
    while no run has found the element. *)
Fixpoint waitForYouTube (polls : list bool) : option nat :=
  match polls with
  | [] => None
  | true :: _ => Some 1
  | false :: later => S <$> waitForYouTube later
  end.

(** The command box as [createCommandBox] builds it, in a document at [u]
    that shows the links [vs]. *)
Definition createCommandBox (u : jsstring) (vs : list Video) : Page :=
  {| status_textContent := js "Ready - Type a command!";
     status_className := js "yt-ai-status";
     input_value := []; input_focused := false;
     content_display := []; toggle_textContent := js "▼";
     location_href := u; assigned_href := [];
     videos := vs; timers := []; sent := []; clicked := [] |}.

(** The texts of the three suggestion buttons. *)
Definition suggestions : list jsstring :=
  [js "play lofi hip hop"; js "play energetic music"; js "play jazz"].

(** *** The functions of the script *)

Section WithEngine.
Variable E : Engine.

(** [updateStatus(message, type)]; every call in the script passes [type]. *)
Definition updateStatus (message type : jsstring) (p : Page) : Page :=
  let p := set_status message (js "yt-ai-status " ++ type) p in
  if bool_decide (type = js "success") || bool_decide (type = js "error")
  then setTimeout ResetStatus 5000 p
  else p.

(** Assigning a value to [textContent], a nullable DOM string: the value
    is converted first, and when the conversion throws nothing is
    assigned. *)
Definition DOMString_of (v : value) : exn jsstring :=
  if isNullish v then Ret [] else ToString_or_throw E v.

Definition results_url (encoded : jsstring) : jsstring :=
  js "https://www.youtube.com/results?search_query=" ++ encoded.

Definition searchAndPlayYouTube (query : value) : Eff Page unit :=
  let* text := lift (ToString_or_throw E query) in
  let* encoded :=
    lift (match encodeURIComponent text with
          | Some e => Ret e
          | None => Throw (URIError_malformed E)
          end) in
  let searchUrl := results_url encoded in
  let* current := gets location_href in
  (if includes current (js "/watch")
   then modify (assign_href searchUrl)
   else modify (assign_href searchUrl)) ;;
  modify (setTimeout PlayFirstVideo 1500).

(** [handleCommand] up to its [await]: the status line and the message. *)
Definition handleCommand_send (command : jsstring) (p : Page) : Page :=
  sendMessage {| type := js "PROCESS_COMMAND"; command := command |}
    (updateStatus (js "Processing...") (js "loading") p).

(** [handleCommand] from its [await] on: [outcome] is what the promise of
    [chrome.runtime.sendMessage] settles with. *)
Definition handleCommand_resume (outcome : exn value) : Eff Page unit :=
  try_catch
    (let* response := lift outcome in
     let* success := lift (Get E response (js "success")) in
     if ToBoolean success then
       let* message := lift (Get E response (js "message")) in
       let* shown := lift (DOMString_of message) in
       modify (updateStatus shown (js "success")) ;;
       let* searchQuery := lift (Get E response (js "searchQuery")) in
       if ToBoolean searchQuery then searchAndPlayYouTube searchQuery else ret tt
     else
       let* error := lift (Get E response (js "error")) in
       let* text := lift (ToString_or_throw E error) in
       modify (updateStatus (js "Error: " ++ text) (js "error")))
    (fun error_message =>
       modify (updateStatus (js "Error: " ++ error_message) (js "error"))).

(** [handleCommand_resume] on an answer [{success: true, message, searchQuery}]
    of the background script, in closed form ([resume_found] below). *)
Definition after_found (q : jsstring) (p : Page) : Page :=
  let p1 := updateStatus (js "🎵 Searching for: " ++ q) (js "success") p in
  match q with
  | [] => p1
  | _ =>
    match encodeURIComponent q with
    | Some e => setTimeout PlayFirstVideo 1500 (assign_href (results_url e) p1)
    | None => updateStatus (js "Error: " ++ URIError_malformed E) (js "error") p1
    end
  end.

(** The click handler of the Send button. *)
Definition sendBtn_click (p : Page) : Page :=
  let command := trim (input_value p) in
  match command with
  | [] => p
  | _ => set_input_value [] (handleCommand_send command p)
  end.

(** The [keypress] handler of the input box. *)
Definition input_keypress (key : jsstring) (p : Page) : Page :=
  if bool_decide (key = js "Enter") then
    let command := trim (input_value p) in
    match command with
    | [] => p
    | _ => set_input_value [] (handleCommand_send command p)
    end
  else p.

(** The click handler of a suggestion button with text [text]. *)
Definition suggestion_click (text : jsstring) (p : Page) : Page :=
  set_input_value [] (handleCommand_send text (set_input_value text p)).

(** The click handler of the toggle. *)
Definition toggle_click (p : Page) : Page :=
  let isHidden := bool_decide (content_display p = js "none") in
  set_panel (if isHidden then js "block" else js "none")
            (if isHidden then js "▼" else js "▲") p.

(** The two [keydown] listeners of the document; [tagName] is that of the
    event's target. *)
Definition document_keydown (key tagName : jsstring) (p : Page) : Page :=
  let p :=
    if bool_decide (key = js "Escape") then set_panel (js "none") (js "▲") p else p in
  if bool_decide (key = js "k")
     && negb (bool_decide (tagName = js "INPUT") || bool_decide (tagName = js "TEXTAREA"))
  then set_input_focused true (set_panel (js "block") (js "▼") p)
  else p.

(** What a timer does when it fires. *)
Definition run_callback (cb : Callback) (p : Page) : Page :=
  match cb with
  | ResetStatus => set_status (js "Ready - Type a command!") (js "yt-ai-status") p
  | PlayFirstVideo =>
      match videos p with
      | firstVideo :: _ =>
          click firstVideo
            (updateStatus (js "Playing: " ++ textContent firstVideo) (js "success") p)
      | [] => p
      end
  | Welcome =>
      updateStatus (js "AI Agent ready! Press K to focus command box.") (js "success") p
  end.

(** *** The page as a machine *)

(** What happens to a page: the user acts, the browser settles the promise
    of the [n]-th message, fires the [n]-th pending timer or shows another
    document. *)
Inductive Event : Type :=
  | Typed (text : jsstring)
  | SendClicked
  | KeyPressed (key : jsstring)
  | SuggestionClicked (n : nat)
  | ToggleClicked
  | KeyDown (key tagName : jsstring)
  | Settled (n : nat) (outcome : exn value)
  | Fired (n : nat)
  | Shown (u : jsstring) (vs : list Video).

(** [None]: the event cannot happen in this state. *)
Definition step (p : Page) (e : Event) : option Page :=
  match e with
  | Typed text => Some (set_input_value text p)
  | SendClicked => Some (sendBtn_click p)
  | KeyPressed key => Some (input_keypress key p)
  | SuggestionClicked n => (fun text => suggestion_click text p) <$> suggestions !! n
  | ToggleClicked => Some (toggle_click p)
  | KeyDown key tagName => Some (document_keydown key tagName p)
  | Settled n outcome =>
      (fun _ => snd (handleCommand_resume outcome p)) <$> sent p !! n
  | Fired n =>
      (fun t => run_callback (callback t) (set_timers (delete n (timers p)) p))
        <$> timers p !! n
  | Shown u vs => Some (set_document u vs p)
  end.

(** Every message the page has sent asks for a command to be processed. *)
Definition well_typed (p : Page) : Prop :=
  Forall (fun m => type m = js "PROCESS_COMMAND") (sent p).

(** A run of the page: the events of [es], one after the other. *)
Fixpoint steps (p : Page) (es : list Event) : option Page :=
  match es with
  | [] => Some p
  | e :: es' =>
      match step p e with
      | Some p' => steps p' es'
      | None => None
      end
  end.

(** The page when the script has started: the command box and the timer of
    the welcome message. *)
Definition started (u : jsstring) (vs : list Video) : Page :=
  setTimeout Welcome 1000 (createCommandBox u vs).

(** What the browser does with the navigation that an assignment to
    [window.location.href] asks for, once it commits it: the document at
    the address assigned last, which shows the links [vs], replaces the
    document the script ran in.  The timers set in that document are
    discarded with it, and the script starts anew in the new document.
    ([Shown] above is a page that changes under the script, as the pages
    of YouTube do when the user moves from one to another without a new
    document being loaded: the script and its timers stay.)
    [None]: no navigation was asked for. *)
Definition commit_navigation (vs : list Video) (p : Page) : option Page :=
  (fun u => started u vs) <$> last (assigned_href p).

(** The timers of [searchAndPlayYouTube] still to fire. *)
Definition isPlayFirstVideo (t : Timer) : bool :=
  match callback t with
  | PlayFirstVideo => true
  | _ => false
  end.

Definition pending_plays (p : Page) : nat :=
  length (List.filter isPlayFirstVideo (timers p)).

(** *** The extension: page and background script together *)

(** The background script handles the message [m] under the upstream
    outcomes [up]: what it puts on the network, and what the page's promise
    is to settle with. *)
Definition answer (up : Upstream) (m : Message) : Eff (list Request) value :=
  let* response := onMessage E up m in
  ret (default VUndefined response).

(** The page, the requests the background script has made, its answers on
    their way to the page (by the number of the message they answer) and
    the numbers of the messages whose promise has settled. *)
Record Extension : Type := {
  page : Page;
  network : list Request;
  answers : gmap nat (exn value);
  settled : gset nat
}.

(** What happens to the extension: something on the page other than a
    settlement; the [n]-th message reaches the background script, which
    handles it; its answer reaches the page; or the channel fails the
    message. *)
Inductive Occurrence : Type :=
  | OnPage (e : Event)
  | Received (n : nat) (up : Upstream)
  | Delivered (n : nat)
  | Unanswered (n : nat) (error_message : jsstring).

Definition receive (n : nat) (up : Upstream) (x : Extension) : option Extension :=
  match sent (page x) !! n, answers x !! n with
  | Some m, None =>
      if bool_decide (n ∈ settled x) then None
      else
        let '(outcome, log) := answer up m (network x) in
        Some {| page := page x; network := log;
                answers := <[n := outcome]> (answers x);
                settled := settled x |}
  | _, _ => None
  end.

Definition settle (n : nat) (outcome : exn value) (x : Extension) : Extension :=
  {| page := snd (handleCommand_resume outcome (page x));
     network := network x;
     answers := delete n (answers x);
     settled := {[n]} ∪ settled x |}.

(** [None]: the occurrence cannot happen in this state. *)
Definition occur (x : Extension) (o : Occurrence) : option Extension :=
  match o with
  | OnPage (Settled _ _) => None
  | OnPage e =>
      (fun p => {| page := p; network := network x;
                   answers := answers x; settled := settled x |})
        <$> step (page x) e
  | Received n up => receive n up x
  | Delivered n => (fun outcome => settle n outcome x) <$> answers x !! n
  | Unanswered n error_message =>
      match sent (page x) !! n with
      | Some _ =>
          if bool_decide (n ∈ settled x) then None
          else Some (settle n (Throw error_message) x)
      | None => None
      end
  end.

Fixpoint occurs (x : Extension) (l : list Occurrence) : option Extension :=
  match l with
  | [] => Some x
  | o :: l' =>
      match occur x o with
      | Some x' => occurs x' l'
      | None => None
      end
  end.

(** The extension once the page is ready: the command box, and the timer
    of the welcome message. *)
Definition initialize (u : jsstring) (vs : list Video) : Extension :=
  {| page := setTimeout Welcome 1000 (createCommandBox u vs);
     network := []; answers := ∅; settled := ∅ |}.

(** Every answer on its way is one of the two objects [processCommand]
    returns. *)
Definition answers_shaped (x : Extension) : Prop :=
  forall n outcome,
    answers x !! n = Some outcome ->
    exists result,
      outcome = Ret result
      /\ ((exists q, result = found q) \/ (exists m, result = failure m)).

(** What holds of the extension whatever happens: the page has sent
    command messages only, and the answers on their way are answers of
    [processCommand]. *)
Definition consistent (x : Extension) : Prop :=
  well_typed (page x) /\ answers_shaped x.

(** The numbers of the messages that have reached the background script,
    or that the channel has failed. *)
Definition handled (x : Extension) : gset nat := dom (answers x) ∪ settled x.

End WithEngine.

End Content.

(* ===================================================================== *)
(** ** The popup script *)
(* ===================================================================== *)

Module Popup.
Import JS.

Inductive Callback : Type :=
  | MaskInput          (* the save handler, 1000 ms *)
  | ClearStatus.       (* showStatus, 3000 ms *)

(** The settings page and the store behind it. *)
Record Popup : Type := {
  apiKeyInput_value : jsstring;
  status_textContent : jsstring;
  status_className : jsstring;
  timers : list Callback;
  storage : gmap string jsstring
}.

Definition set_input (v : jsstring) (p : Popup) : Popup :=
  {| apiKeyInput_value := v; status_textContent := status_textContent p;
     status_className := status_className p; timers := timers p;
     storage := storage p |}.

Definition set_status (text className : jsstring) (p : Popup) : Popup :=
  {| apiKeyInput_value := apiKeyInput_value p; status_textContent := text;
     status_className := className; timers := timers p; storage := storage p |}.

Definition set_timers (ts : list Callback) (p : Popup) : Popup :=
  {| apiKeyInput_value := apiKeyInput_value p; status_textContent := status_textContent p;
     status_className := status_className p; timers := ts; storage := storage p |}.

Definition set_storage (m : gmap string jsstring) (p : Popup) : Popup :=
  {| apiKeyInput_value := apiKeyInput_value p; status_textContent := status_textContent p;
     status_className := status_className p; timers := timers p; storage := m |}.

Definition setTimeout (cb : Callback) (p : Popup) : Popup :=
  set_timers (timers p ++ [cb]) p.

Definition showStatus (message type : jsstring) (p : Popup) : Popup :=
  let p := set_status message (js "status " ++ type) p in
  if bool_decide (type = js "success") then setTimeout ClearStatus p else p.

(** The click handler of the Save button; [written] is the outcome of
    [chrome.storage.sync.set], which a store can refuse. *)
Definition saveBtn_click (written : exn unit) (p : Popup) : Popup :=
  let apiKey := trim (apiKeyInput_value p) in
  match apiKey with
  | [] => showStatus (js "Please enter an API key") (js "error") p
  | _ =>
    if negb (startsWith apiKey (js "sk-ant-"))
    then showStatus (js "Invalid API key format") (js "error") p
    else
      match written with
      | Ret _ =>
          setTimeout MaskInput
            (showStatus (js "✅ Settings saved successfully!") (js "success")
               (set_storage (<["apiKey" := apiKey]> (storage p)) p))
      | Throw _ => showStatus (js "❌ Error saving settings") (js "error") p
      end
  end.

(** The [keypress] handler of the input: Enter clicks Save. *)
Definition apiKeyInput_keypress (key : jsstring) (written : exn unit) (p : Popup) : Popup :=
  if bool_decide (key = js "Enter") then saveBtn_click written p else p.

Definition run_callback (cb : Callback) (p : Popup) : Popup :=
  match cb with
  | MaskInput => set_input (js "••••••••••••••••") p
  | ClearStatus => set_status (status_textContent p) (js "status") p
  end.

(** The page as [DOMContentLoaded] leaves it over a store [m]: the saved
    key, if any, is put in the input. *)
Definition loaded (m : gmap string jsstring) : Popup :=
  {| apiKeyInput_value := match m !! "apiKey" with
                          | Some (c :: k) => c :: k
                          | _ => []
                          end;
     status_textContent := []; status_className := js "status";
     timers := []; storage := m |}.

Inductive Event : Type :=
  | Typed (text : jsstring)
  | SaveClicked (written : exn unit)
  | KeyPressed (key : jsstring) (written : exn unit)
  | Fired (n : nat).

Definition step (p : Popup) (e : Event) : Popup :=
  match e with
  | Typed text => set_input text p
  | SaveClicked written => saveBtn_click written p
  | KeyPressed key written => apiKeyInput_keypress key written p
  | Fired n =>
      match timers p !! n with
      | Some cb => run_callback cb (set_timers (delete n (timers p)) p)
      | None => p
      end
  end.

Definition run (p : Popup) (es : list Event) : Popup := foldl step p es.

(** A key of the form the save handler accepts. *)
Definition prefixed (k : jsstring) : Prop := startsWith k (js "sk-ant-") = true.

End Popup.

(* ===================================================================== *)
(** ** Session context *)
(* ===================================================================== *)

Module SessionContext.

Section Entries.
(** What an entry holds: the utterance, the intent and the result. *)
Variable Entry : Type.

(** Modelled from the spec: the session context, of which the sources hold
    no code.  It is an ordered sequence of entries of bounded length, the
    oldest evicted first; [record] appends, [recent k] is the ordered
    sequence of the last [k] entries. *)
Record SessionContext : Type := {
  bound : nat;
  entries : list Entry
}.

(** The last [k] elements of [l], in the order of [l]; all of [l] when it
    has no more than [k]. *)
Definition last_entries (k : nat) (l : list Entry) : list Entry :=
  drop (length l - k) l.

(** Modelled from the spec: the context of a session that starts, bounded
    by [n]. *)
Definition empty (n : nat) : SessionContext := {| bound := n; entries := [] |}.

(** Modelled from the spec: [record] appends the entry and, past the bound,
    evicts the oldest. *)
Definition record (e : Entry) (c : SessionContext) : SessionContext :=
  {| bound := bound c; entries := last_entries (bound c) (entries c ++ [e]) |}.

(** Modelled from the spec: [recent k], the ordered sequence of the last
    [k] entries. *)
Definition recent (k : nat) (c : SessionContext) : list Entry :=
  last_entries k (entries c).

Definition record_all (es : list Entry) (c : SessionContext) : SessionContext :=
  foldl (fun c e => record e c) c es.

End Entries.

End SessionContext.

(* ===================================================================== *)
(** ** An engine to run examples with *)
(* ===================================================================== *)

Module Sample.
Import JS Background.

(** Chrome's error texts. *)
Definition engine : Engine :=
  {| TypeError_nullish := fun v k =>
       js "Cannot read properties of " ++ (if v is VNull then js "null" else js "undefined")
       ++ js " (reading '" ++ k ++ js "')";
     TypeError_not_a_function := fun callee => callee ++ js " is not a function";
     URIError_malformed := js "URI malformed";
     TypeError_not_primitive := js "Cannot convert object to primitive value" |}.

(** The body of a reply of the model with the one text block [text]. *)
Definition message_body (text : jsstring) : value :=
  VObj [ (js "id", VStr (js "msg_01"));
         (js "type", VStr (js "message"));
         (js "role", VStr (js "assistant"));
         (js "content", VArr [ VObj [ (js "type", VStr (js "text"));
                                      (js "text", VStr text) ] ]) ].

Definition stored_key : gmap string jsstring := {[ "apiKey" := js "sk-ant-api03-k" ]}.

(** The key is stored and the model replies [text]. *)
Definition replying (text : jsstring) : Upstream :=
  {| storage_get := Ret stored_key;
     fetch := fun _ => Ret {| ok := true; json := Ret (message_body text) |} |}.

(** The key is stored and the network is down. *)
Definition offline : Upstream :=
  {| storage_get := Ret stored_key;
     fetch := fun _ => Throw (js "Failed to fetch") |}.

(** The key is stored and the reply's body has no [content]. *)
Definition malformed : Upstream :=
  {| storage_get := Ret stored_key;
     fetch := fun _ => Ret {| ok := true; json := Ret (VObj [ (js "type", VStr (js "message")) ]) |} |}.

(** Nothing is stored. *)
Definition unconfigured : Upstream :=
  {| storage_get := Ret ∅;
     fetch := fun _ => Throw (js "Failed to fetch") |}.

(** The extension on the home page, where no result link is shown. *)
Definition home : Content.Extension :=
  Content.initialize (js "https://www.youtube.com/") [].

(** The first two links of a page of results. *)
Definition first_link : Content.Video :=
  {| Content.textContent := js "lofi hip hop radio";
     Content.href := js "/watch?v=1" |}.

Definition second_link : Content.Video :=
  {| Content.textContent := js "lofi mix";
     Content.href := js "/watch?v=2" |}.

(** The first link of the results of an earlier search, and the page that
    shows it. *)
Definition earlier_link : Content.Video :=
  {| Content.textContent := js "Take Five";
     Content.href := js "/watch?v=0" |}.

Definition earlier_results : Content.Extension :=
  Content.initialize (js "https://www.youtube.com/results?search_query=jazz")
    [earlier_link].

(** A page of results in which the script has started, and a run of it: a
    command typed and sent, its answer, the timer of the search, a
    suggestion, the toggle, the K key and the timer of the welcome. *)
Definition results_page : Content.Page :=
  Content.started (js "https://www.youtube.com/results?search_query=lofi")
    [first_link; second_link].

Definition session : list Content.Event :=
  [ Content.Typed (js "  play jazz "); Content.SendClicked;
    Content.Settled 0 (Ret (found (js "jazz music")));
    Content.Fired 2; Content.SuggestionClicked 0; Content.ToggleClicked;
    Content.KeyDown (js "k") (js "BODY"); Content.Fired 0 ].

(** A run of the extension: a command that is answered, and a suggestion
    whose message the channel fails. *)
Definition exchange : list Content.Occurrence :=
  [ Content.OnPage (Content.Typed (js "play jazz")); Content.OnPage Content.SendClicked;
    Content.Received 0 (replying (js "jazz music")); Content.Delivered 0;
    Content.OnPage (Content.SuggestionClicked 1);
    Content.Unanswered 1 (js "The message port closed before a response was received.") ].

End Sample.

(* ===================================================================== *)
(** ** The specification's terms, read on the extension *)
(* ===================================================================== *)

Module Stated.
Import JS Background.

(** The closed set of actions of the specification. *)
Definition actions : list jsstring :=
  [ js "search"; js "play"; js "pause"; js "skip"; js "previous";
    js "set-volume"; js "queue"; js "create-playlist"; js "like";
    js "shuffle-toggle"; js "now-playing" ].

(** An answer names an action of the closed set. *)
Definition has_action (E : Engine) (answer : value) : Prop :=
  exists a, Get E answer (js "action") = Ret (VStr a) /\ a ∈ actions.

(** An answer has a field for an error kind: one besides the four fields
    the background script writes. *)
Definition has_error_kind (answer : value) : Prop :=
  exists fields k v,
    answer = VObj fields
    /\ (k ∉ [js "success"; js "error"; js "message"; js "searchQuery"])
    /\ lookup_field k fields = Some v.

(** An answer is tagged with an utterance id: it has an [id] field. *)
Definition has_id (E : Engine) (answer : value) : Prop :=
  exists i, Get E answer (js "id") = Ret i /\ i <> VUndefined.

(** The re-prompts among the requests of one command: those after the
    first. *)
Definition repair_attempts (requests : list Request) : nat :=
  length requests - 1.

End Stated.

(* ===================================================================== *)
(** ** Properties *)
(* ===================================================================== *)

Import JS Eff.

Arguments js : simpl never.
Arguments Background.api_request : simpl never.
Arguments Background.failure : simpl never.
Arguments Background.found : simpl never.

(** *** Strings *)

Lemma startsWith_app (p r : jsstring) : startsWith (p ++ r) p = true.
Proof.
  induction p as [|a p IH]; simpl; [done|].
  by rewrite N.eqb_refl, IH.
Qed.

Lemma startsWith_prefix (s p : jsstring) :
  startsWith s p = true -> exists r, s = p ++ r.
Proof.
  revert s. induction p as [|a p IH]; intros s H.
  - by exists s.
  - destruct s as [|b s]; simpl in H; [done|].
    apply andb_true_iff in H as [Hab Hs].
    apply N.eqb_eq in Hab as ->.
    destruct (IH _ Hs) as [r ->]. by exists r.
Qed.

Lemma includes_unfold (s sub : jsstring) :
  includes s sub
  = startsWith s sub || match s with [] => false | _ :: r => includes r sub end.
Proof. by destruct s. Qed.

Lemma includes_app (a sub b : jsstring) : includes (a ++ sub ++ b) sub = true.
Proof.
  induction a as [|c a IH]; simpl.
  - by rewrite includes_unfold, startsWith_app.
  - rewrite IH. apply orb_true_r.
Qed.

Lemma includes_suffix (a sub : jsstring) : includes (a ++ sub) sub = true.
Proof.
  pose proof (includes_app a sub []) as H. by rewrite app_nil_r in H.
Qed.

Lemma includes_infix (s sub : jsstring) :
  includes s sub = true -> exists a b, s = a ++ sub ++ b.
Proof.
  induction s as [|c s IH]; simpl; intros H.
  - rewrite orb_false_r in H. destruct sub; [|done]. by exists [], [].
  - apply orb_true_iff in H as [H|H].
    + destruct (startsWith_prefix _ _ H) as [r Hr]. exists [], r. by rewrite Hr.
    + destruct (IH H) as (a & b & ->). by exists (c :: a), b.
Qed.

Lemma trimStart_blank (s : jsstring) :
  forallb isWhiteSpace s = true -> trimStart s = [].
Proof.
  induction s as [|c s IH]; simpl; [done|].
  intros H. apply andb_true_iff in H as [-> Hs]. auto.
Qed.

Lemma trim_blank (s : jsstring) : forallb isWhiteSpace s = true -> trim s = [].
Proof. intros H. unfold trim. by rewrite trimStart_blank. Qed.

Lemma trimStart_split (s : jsstring) :
  exists l, s = l ++ trimStart s /\ Forall (fun c => isWhiteSpace c = true) l.
Proof.
  induction s as [|c s (l & Hl & Hblank)]; simpl; [by exists []|].
  destruct (isWhiteSpace c) eqn:Hc; [|by exists []].
  exists (c :: l). split; [by rewrite <- app_comm_cons, <- Hl | by constructor].
Qed.

Lemma trimStart_head (s : jsstring) (c : N) (t : jsstring) :
  trimStart s = c :: t -> isWhiteSpace c = false.
Proof.
  induction s as [|d s IH]; simpl; [done|].
  destruct (isWhiteSpace d) eqn:Hd; [done|]. by intros [= <- _].
Qed.

Lemma trimEnd_split (s : jsstring) :
  exists r, s = trimEnd s ++ r /\ Forall (fun c => isWhiteSpace c = true) r.
Proof.
  destruct (trimStart_split (rev s)) as (l & Hl & Hblank).
  exists (rev l). split; [|by apply Forall_rev].
  unfold trimEnd. by rewrite <- rev_app_distr, <- Hl, rev_involutive.
Qed.

Lemma trimEnd_last (s t : jsstring) (c : N) :
  trimEnd s = t ++ [c] -> isWhiteSpace c = false.
Proof.
  unfold trimEnd. intros H.
  apply (f_equal (@rev N)) in H. rewrite rev_involutive, rev_app_distr in H.
  simpl in H. by eapply trimStart_head.
Qed.

(** [trim s] is [s] without the white space around it: what it leaves out
    on each side is white space, and it neither starts nor ends with
    any. *)
Lemma trim_spec (s : jsstring) :
  (exists l r, s = l ++ trim s ++ r
               /\ Forall (fun c => isWhiteSpace c = true) l
               /\ Forall (fun c => isWhiteSpace c = true) r)
  /\ (forall c t, trim s = c :: t -> isWhiteSpace c = false)
  /\ (forall t c, trim s = t ++ [c] -> isWhiteSpace c = false).
Proof.
  destruct (trimStart_split s) as (l & Hl & Hbl).
  destruct (trimEnd_split (trimStart s)) as (r & Hr & Hbr).
  split_and!.
  - exists l, r. split_and!; try done. unfold trim. by rewrite <- Hr.
  - intros c t Hct. unfold trim in Hct. rewrite Hct in Hr.
    by eapply trimStart_head.
  - intros t c. apply trimEnd_last.
Qed.

(** *** The background script *)

Section BackgroundFacts.
Import Background.
Variable E : Engine.

(** The ways through the [try] block of [processCommand]: the store cannot
    be read; it holds no key; or one request goes out, and the block ends
    with a found query or with a thrown error. *)
Lemma processCommand_try_cases (up : Upstream) (command : jsstring) (log : list Request) :
  (exists m, storage_get up = Throw m
             /\ processCommand_try E up command log = (Throw m, log))
  \/ (exists store, storage_get up = Ret store
             /\ (store !! "apiKey" = None \/ store !! "apiKey" = Some [])
             /\ processCommand_try E up command log = (Ret (failure no_key_message), log))
  \/ (exists store apiKey, storage_get up = Ret store
             /\ store !! "apiKey" = Some apiKey /\ apiKey <> []
             /\ snd (processCommand_try E up command log)
                = log ++ [api_request apiKey command]
             /\ ((exists q, fst (processCommand_try E up command log) = Ret (found q))
                 \/ (exists m, fst (processCommand_try E up command log) = Throw m))).
Proof.
  unfold processCommand_try, bind, lift, call_fetch, ret, throw.
  destruct (storage_get up) as [store|m] eqn:Hget; [|left; eauto].
  right.
  destruct (store !! "apiKey") as [[|c k]|] eqn:Hkey; [left; eauto 6| |left; eauto 6].
  right. exists store, (c :: k). split_and!; try done.
  - repeat case_match; simplify_eq/=; done.
  - repeat case_match; simplify_eq/=; eauto.
Qed.

(** Reading the fields of the two answers. *)
Lemma Get_found (q : jsstring) :
  Get E (found q) (js "success") = Ret (VBool true)
  /\ Get E (found q) (js "message") = Ret (VStr (js "🎵 Searching for: " ++ q))
  /\ Get E (found q) (js "searchQuery") = Ret (VStr q)
  /\ Get E (found q) (js "error") = Ret VUndefined.
Proof. by split_and!. Qed.

Lemma Get_failure (m : jsstring) :
  Get E (failure m) (js "success") = Ret (VBool false)
  /\ Get E (failure m) (js "error") = Ret (VStr m)
  /\ Get E (failure m) (js "message") = Ret VUndefined
  /\ Get E (failure m) (js "searchQuery") = Ret VUndefined.
Proof. by split_and!. Qed.

End BackgroundFacts.

Section BackgroundClaims.
Import Background.
Variable E : Engine.

Lemma processCommand_unfold (up : Upstream) (command : jsstring) (log : list Request) :
  processCommand E up command log
  = match processCommand_try E up command log with
    | (Ret r, log') => (Ret r, log')
    | (Throw m, log') => (Ret (failure m), log')
    end.
Proof. reflexivity. Qed.

(** Whatever the upstream calls do, [processCommand] puts at most one
    request on the network. *)
Lemma at_most_one_request (up : Upstream) (command : jsstring) (log : list Request) :
  snd (processCommand E up command log) = log
  \/ exists apiKey, snd (processCommand E up command log)
                    = log ++ [api_request apiKey command].
Proof.
  rewrite processCommand_unfold.
  destruct (processCommand_try_cases E up command log)
    as [(m & _ & ->) | [(store & _ & _ & ->) | (store & k & _ & _ & _ & Hlog & _)]];
    [by left | by left |].
  right. exists k. by destruct (processCommand_try E up command log) as [[r|m] l].
Qed.

(** The block, once the key is read and the reply has come with an ok
    status: it ends as the reading of the reply ends. *)
Lemma processCommand_try_ok (up : Upstream) (command : jsstring) (log : list Request)
    (store : gmap string jsstring) (apiKey : jsstring) (response : Response) :
  storage_get up = Ret store -> store !! "apiKey" = Some apiKey -> apiKey <> [] ->
  fetch up (api_request apiKey command) = Ret response -> ok response = true ->
  processCommand_try E up command log
  = (match searchQuery_of E response with
     | Ret q => Ret (found q)
     | Throw m => Throw m
     end, log ++ [api_request apiKey command]).
Proof.
  intros Hget Hkey Hne Hfetch Hok.
  unfold processCommand_try, searchQuery_of, bind, lift, call_fetch, ret.
  rewrite Hget. lazy beta iota. rewrite Hkey. destruct apiKey as [|c k]; [done|].
  rewrite Hfetch, Hok. simpl.
  repeat case_match; simplify_eq/=; done.
Qed.

(** C8. When the store holds no API key, [processCommand] answers with
    [success: false] and the text that tells the user to configure the
    key, and the log of requests is as it was: nothing went to the model's
    endpoint. *)
Theorem processCommand_without_key (up : Upstream) (command : jsstring)
    (log : list Request) (store : gmap string jsstring) :
  storage_get up = Ret store -> store !! "apiKey" = None ->
  exists result,
    processCommand E up command log = (Ret result, log)
    /\ Get E result (js "success") = Ret (VBool false)
    /\ Get E result (js "error")
       = Ret (VStr (js "API key not set. Click the extension icon to configure.")).
Proof.
  intros Hget Hkey. exists (failure no_key_message).
  rewrite processCommand_unfold.
  unfold processCommand_try, bind, lift, ret. rewrite Hget. lazy beta iota. by rewrite Hkey.
Qed.

(** C10. When the model call succeeds (the key is stored, the reply has an
    ok status and its [content[0].text] is a string [text]), the answer of
    [processCommand] has [success: true], its [searchQuery] is [text]
    with the white space around it trimmed, and its [message] contains
    that query. *)
Theorem processCommand_success (up : Upstream) (command : jsstring) (log : list Request)
    (store : gmap string jsstring) (apiKey : jsstring) (response : Response)
    (data content first : value) (text : jsstring) :
  storage_get up = Ret store -> store !! "apiKey" = Some apiKey -> apiKey <> [] ->
  fetch up (api_request apiKey command) = Ret response -> ok response = true ->
  json response = Ret data ->
  Get E data (js "content") = Ret content ->
  GetIndex E content 0 = Ret first ->
  Get E first (js "text") = Ret (VStr text) ->
  exists result query message,
    fst (processCommand E up command log) = Ret result
    /\ Get E result (js "success") = Ret (VBool true)
    /\ Get E result (js "searchQuery") = Ret (VStr query)
    /\ Get E result (js "message") = Ret (VStr message)
    /\ query = trim text
    /\ (exists l r, text = l ++ query ++ r
                    /\ Forall (fun c => isWhiteSpace c = true) l
                    /\ Forall (fun c => isWhiteSpace c = true) r)
    /\ (forall c t, query = c :: t -> isWhiteSpace c = false)
    /\ (forall t c, query = t ++ [c] -> isWhiteSpace c = false)
    /\ includes message query = true
    /\ exists before after, message = before ++ query ++ after.
Proof.
  intros Hget Hkey Hne Hfetch Hok Hjson Hcontent Hfirst Htext.
  exists (found (trim text)), (trim text), (js "🎵 Searching for: " ++ trim text).
  rewrite processCommand_unfold,
    (processCommand_try_ok up command log store apiKey response) by done.
  unfold searchQuery_of. rewrite Hjson, Hcontent, Hfirst, Htext.
  destruct (trim_spec text) as (Hsplit & Hhead & Hlast).
  split_and!; try done.
  - apply includes_suffix.
  - exists (js "🎵 Searching for: "), []. by rewrite app_nil_r.
Qed.

(** The answer of [processCommand] is one of the two shapes. *)
Lemma processCommand_answers (up : Upstream) (command : jsstring) (log : list Request) :
  exists result,
    fst (processCommand E up command log) = Ret result
    /\ ((exists q, result = found q) \/ (exists m, result = failure m)).
Proof.
  rewrite processCommand_unfold.
  destruct (processCommand_try_cases E up command log)
    as [(m & _ & ->) | [(store & _ & _ & ->) | (store & k & _ & _ & _ & _ & Hres)]];
    [eauto | eauto |].
  destruct (processCommand_try E up command log) as [[r|m] l]; simpl in *.
  - destruct Hres as [[q Hq]|[m Hm]]; simplify_eq; eauto.
  - eauto.
Qed.

(** The answer is a found query only when every upstream call has
    succeeded: the store was read and holds a key, the reply came with an
    ok status, and it could be read. *)
Lemma found_only_when_all_succeed (up : Upstream) (command : jsstring)
    (log : list Request) (q : jsstring) :
  fst (processCommand E up command log) = Ret (found q) ->
  exists store apiKey response,
    storage_get up = Ret store /\ store !! "apiKey" = Some apiKey /\ apiKey <> []
    /\ fetch up (api_request apiKey command) = Ret response /\ ok response = true
    /\ searchQuery_of E response = Ret q.
Proof.
  rewrite processCommand_unfold.
  destruct (storage_get up) as [store|m] eqn:Hget.
  2: { unfold processCommand_try, bind, lift. rewrite Hget. intros [=]. }
  destruct (store !! "apiKey") as [apiKey|] eqn:Hkey.
  2: { unfold processCommand_try, bind, lift, ret. rewrite Hget. lazy beta iota.
       rewrite Hkey. intros [=]. }
  destruct apiKey as [|c k].
  { unfold processCommand_try, bind, lift, ret. rewrite Hget. lazy beta iota.
    rewrite Hkey. intros [=]. }
  destruct (fetch up (api_request (c :: k) command)) as [response|m] eqn:Hfetch.
  2: { unfold processCommand_try, bind, lift, call_fetch. rewrite Hget. lazy beta iota.
       rewrite Hkey, Hfetch. intros [=]. }
  destruct (ok response) eqn:Hok.
  - rewrite (processCommand_try_ok up command log store (c :: k) response) by done.
    destruct (searchQuery_of E response) as [q'|m] eqn:Hq; cbn; intros [= <-].
    by exists store, (c :: k), response.
  - unfold processCommand_try, bind, lift, call_fetch, throw, ret.
    rewrite Hget. lazy beta iota. rewrite Hkey, Hfetch, Hok. cbn [negb].
    repeat case_match; simplify_eq/=; intros [=].
Qed.

(** C2, as the code has it. Whatever the upstream calls do,
    [processCommand] returns and throws nothing: an error thrown inside
    its [try] block becomes the answer [{success: false, error: message}],
    an object of these two fields and no error kind, and the answer is a
    success only when every upstream call has succeeded. The listener
    sends that answer, and [handleCommand] in the page, whatever its
    promise settles with, returns too. *)
Theorem errors_become_answers (up : Upstream) (command : jsstring) (log : list Request)
    (outcome : exn value) (p : Content.Page) :
  exists result log',
    processCommand E up command log = (Ret result, log')
    /\ match fst (processCommand_try E up command log) with
       | Throw message => result = failure message
       | Ret r => result = r
       end
    /\ ((exists q, result = found q) \/ (exists m, result = failure m))
    /\ (forall q, result = found q ->
          exists store apiKey response,
            storage_get up = Ret store /\ store !! "apiKey" = Some apiKey
            /\ fetch up (api_request apiKey command) = Ret response
            /\ ok response = true
            /\ searchQuery_of E response = Ret q)
    /\ onMessage E up {| type := js "PROCESS_COMMAND"; command := command |} log
       = (Ret (Some result), log')
    /\ fst (Content.handleCommand_resume E outcome p) = Ret tt.
Proof.
  destruct (processCommand_answers up command log) as (result & Hres & Hshape).
  pose proof (found_only_when_all_succeed up command log) as Hfound.
  destruct (processCommand E up command log) as [r log'] eqn:Hpc.
  simpl in Hres. subst r. exists result, log'. split_and!; try done.
  - rewrite processCommand_unfold in Hpc.
    destruct (processCommand_try E up command log) as [[r|m] l];
      simpl; by simplify_eq.
  - intros q ->.
    destruct (Hfound q eq_refl) as (store & k & response & Hs & Hk & _ & Hf & Ho & Hq).
    by exists store, k, response.
  - unfold onMessage. cbn [Background.command Background.type].
    rewrite bool_decide_true by done.
    unfold bind, try_catch, ret. by rewrite Hpc.
  - unfold Content.handleCommand_resume, try_catch.
    match goal with
    | |- fst (match ?body with _ => _ end) = _ => by destruct body as [[[]|m] p']
    end.
Qed.

(** C4, as the code has it. When the reply of the model cannot be read
    (its body is not JSON, or [content[0].text] is not a string),
    [processCommand] answers at once with the failure the reading threw:
    the one request of the command is all that went out, with no re-prompt
    after it, and the page sends nothing again on that answer. *)
Theorem unreadable_reply_fails_at_once (up : Upstream) (command : jsstring)
    (log : list Request) (store : gmap string jsstring) (apiKey : jsstring)
    (response : Response) (message : jsstring) (p : Content.Page) :
  storage_get up = Ret store -> store !! "apiKey" = Some apiKey -> apiKey <> [] ->
  fetch up (api_request apiKey command) = Ret response -> ok response = true ->
  searchQuery_of E response = Throw message ->
  processCommand E up command log
    = (Ret (failure message), log ++ [api_request apiKey command])
  /\ Content.sent (snd (Content.handleCommand_resume E (Ret (failure message)) p))
     = Content.sent p.
Proof.
  intros Hget Hkey Hne Hfetch Hok Hread.
  rewrite processCommand_unfold,
    (processCommand_try_ok up command log store apiKey response) by done.
  rewrite Hread. done.
Qed.

End BackgroundClaims.

(** On a reply without [content], the answer is a failure and has no field
    for an error kind: C2 as stated fails there. *)
Lemma failure_without_error_kind :
  exists result,
    fst (Background.processCommand Sample.engine Sample.malformed (js "play jazz") [])
    = Ret result
    /\ Get Sample.engine result (js "success") = Ret (VBool false)
    /\ ~ Stated.has_error_kind result.
Proof.
  eexists. split_and!; [reflexivity | reflexivity |].
  intros (fields & k & v & Hobj & Hk & Hv).
  injection Hobj as <-. simpl in Hv.
  repeat (case_bool_decide; [subst k; apply Hk; set_solver|]). done.
Qed.

(** On a reply that cannot be read, one request went out and no re-prompt
    followed: C4 as stated (exactly one repair attempt) fails there. *)
Lemma unreadable_reply_no_repair :
  exists message,
    fst (Background.processCommand Sample.engine Sample.malformed (js "play jazz") [])
    = Ret (Background.failure message)
    /\ Stated.repair_attempts
         (snd (Background.processCommand Sample.engine Sample.malformed (js "play jazz") []))
       <> 1.
Proof. eexists. split; [reflexivity | vm_compute; lia]. Qed.

Lemma errors_become_answers_witness :
  exists log',
    Background.processCommand Sample.engine Sample.offline (js "play jazz") []
    = (Ret (Background.failure (js "Failed to fetch")), log').
Proof.
  destruct (errors_become_answers Sample.engine Sample.offline (js "play jazz") []
              (Ret VNull) (Content.createCommandBox [] []))
    as (result & log' & Hpc & Hthrown & _).
  exists log'. rewrite Hpc. f_equal. f_equal. exact Hthrown.
Defined.

Lemma unreadable_reply_fails_at_once_witness :
  Background.processCommand Sample.engine Sample.malformed (js "play jazz") []
  = (Ret (Background.failure
            (js "Cannot read properties of undefined (reading '0')")),
     [Background.api_request (js "sk-ant-api03-k") (js "play jazz")]).
Proof.
  apply (unreadable_reply_fails_at_once Sample.engine Sample.malformed (js "play jazz") []
           Sample.stored_key (js "sk-ant-api03-k")
           {| Background.ok := true;
              Background.json := Ret (VObj [ (js "type", VStr (js "message")) ]) |}
           (js "Cannot read properties of undefined (reading '0')")
           (Content.createCommandBox [] []));
    first [reflexivity | discriminate].
Defined.

Lemma processCommand_without_key_witness :
  exists result,
    Background.processCommand Sample.engine Sample.unconfigured (js "play jazz") []
    = (Ret result, [])
    /\ Get Sample.engine result (js "success") = Ret (VBool false)
    /\ Get Sample.engine result (js "error")
       = Ret (VStr (js "API key not set. Click the extension icon to configure.")).
Proof.
  apply (processCommand_without_key Sample.engine Sample.unconfigured (js "play jazz") [] ∅);
    reflexivity.
Defined.

Lemma processCommand_success_witness :
  exists result query message,
    fst (Background.processCommand Sample.engine (Sample.replying (js " lofi hip hop "))
           (js "play lofi hip hop") [])
    = Ret result
    /\ Get Sample.engine result (js "searchQuery") = Ret (VStr query)
    /\ Get Sample.engine result (js "message") = Ret (VStr message)
    /\ query = js "lofi hip hop"
    /\ includes message query = true.
Proof.
  destruct (processCommand_success Sample.engine (Sample.replying (js " lofi hip hop "))
           (js "play lofi hip hop") [] Sample.stored_key (js "sk-ant-api03-k")
           {| Background.ok := true;
              Background.json := Ret (Sample.message_body (js " lofi hip hop ")) |}
           (Sample.message_body (js " lofi hip hop "))
           (VArr [ VObj [ (js "type", VStr (js "text"));
                          (js "text", VStr (js " lofi hip hop ")) ] ])
           (VObj [ (js "type", VStr (js "text"));
                   (js "text", VStr (js " lofi hip hop ")) ])
           (js " lofi hip hop ")
           eq_refl eq_refl ltac:(discriminate) eq_refl eq_refl eq_refl eq_refl eq_refl eq_refl)
    as (result & query & message & Hres & _ & Hq & Hm & Htrim & _ & _ & _ & Hinc & _).
  exists result, query, message. by split_and!.
Defined.

(** *** The content script *)

Section ContentFacts.
Import Content.
Variable E : Engine.

(** What the page does with a failure: the status line, nothing else. *)
Lemma resume_failure (m : jsstring) (p : Page) :
  snd (handleCommand_resume E (Ret (failure m)) p)
  = updateStatus (js "Error: " ++ m) (js "error") p.
Proof. reflexivity. Qed.

(** What the page does with a found query. *)
Lemma resume_found (q : jsstring) (p : Page) :
  snd (handleCommand_resume E (Ret (found q)) p) = after_found E q p.
Proof.
  unfold after_found, handleCommand_resume, searchAndPlayYouTube,
    try_catch, bind, lift, modify, gets, ret.
  destruct (Get_found E q) as (-> & -> & -> & _).
  destruct q as [|c q]; [reflexivity|].
  cbn -[encodeURIComponent updateStatus includes].
  destruct (encodeURIComponent (c :: q)) as [e|]; cbn -[updateStatus includes]; [|done].
  by destruct (includes _ _).
Qed.

(** [updateStatus] touches the status line and the timers only. *)
Lemma updateStatus_frame (message type : jsstring) (p : Page) :
  status_textContent (updateStatus message type p) = message
  /\ status_className (updateStatus message type p) = js "yt-ai-status " ++ type
  /\ sent (updateStatus message type p) = sent p
  /\ clicked (updateStatus message type p) = clicked p
  /\ assigned_href (updateStatus message type p) = assigned_href p
  /\ input_value (updateStatus message type p) = input_value p.
Proof. unfold updateStatus. by case_match. Qed.

Lemma after_found_frame (q : jsstring) (p : Page) :
  sent (after_found E q p) = sent p
  /\ clicked (after_found E q p) = clicked p
  /\ assigned_href (after_found E q p)
     = assigned_href p
       ++ match q with
          | [] => []
          | _ => match encodeURIComponent q with
                 | Some e => [results_url e]
                 | None => []
                 end
          end
  /\ (status_textContent (after_found E q p) = js "🎵 Searching for: " ++ q
      \/ status_textContent (after_found E q p) = js "Error: " ++ URIError_malformed E).
Proof.
  unfold after_found.
  destruct (updateStatus_frame (js "🎵 Searching for: " ++ q) (js "success") p)
    as (Hst & _ & Hsent & Hclicked & Hhref & _).
  destruct q as [|c q]; [rewrite (app_nil_r (assigned_href p)); split_and!; auto|].
  destruct (encodeURIComponent (c :: q)) as [e|].
  - cbn [setTimeout set_timers assign_href sent clicked assigned_href status_textContent].
    rewrite Hsent, Hclicked, Hhref. split_and!; auto.
  - destruct (updateStatus_frame (js "Error: " ++ URIError_malformed E) (js "error")
                (updateStatus (js "🎵 Searching for: " ++ c :: q) (js "success") p))
      as (-> & _ & -> & -> & -> & _).
    rewrite (app_nil_r (assigned_href p)). split_and!; auto.
Qed.

(** No answer of the background script names an action or carries an id. *)
Lemma answers_have_no_action_no_id (result : value) :
  (exists q, result = found q) \/ (exists m, result = failure m) ->
  ~ Stated.has_action E result /\ ~ Stated.has_id E result.
Proof.
  intros [[q ->]|[m ->]]; split.
  all: try (intros (a & Ha & _); discriminate Ha).
  all: intros (i & Hi & Hne); apply Hne; by injection Hi as <-.
Qed.

(** C1, as the code has it. The answer of [processCommand] names no
    action: it is a found query or a failure. On it the page sends nothing
    and clicks nothing, and it asks for a navigation in one case only: a
    found query that is not empty and that [encodeURIComponent] accepts is
    searched on YouTube, whatever its text; no answer is rejected for what
    it says. *)
Theorem only_searches_are_dispatched (up : Upstream) (command : jsstring)
    (log : list Request) (p : Page) :
  exists result,
    fst (processCommand E up command log) = Ret result
    /\ ~ Stated.has_action E result
    /\ sent (snd (handleCommand_resume E (Ret result) p)) = sent p
    /\ clicked (snd (handleCommand_resume E (Ret result) p)) = clicked p
    /\ ((exists m, result = failure m
                   /\ assigned_href (snd (handleCommand_resume E (Ret result) p))
                      = assigned_href p)
        \/ (exists q, result = found q
                   /\ assigned_href (snd (handleCommand_resume E (Ret result) p))
                      = assigned_href p
                        ++ match q with
                           | [] => []
                           | _ => match encodeURIComponent q with
                                  | Some e => [results_url e]
                                  | None => []
                                  end
                           end)).
Proof.
  destruct (processCommand_answers E up command log) as (result & Hres & Hshape).
  exists result. split; [done|].
  split; [by apply answers_have_no_action_no_id|].
  destruct Hshape as [[q ->]|[m ->]].
  - rewrite resume_found.
    destruct (after_found_frame q p) as (-> & -> & -> & _). eauto 6.
  - rewrite resume_failure.
    destruct (updateStatus_frame (js "Error: " ++ m) (js "error") p)
      as (_ & _ & -> & -> & -> & _). eauto 6.
Qed.

(** Whatever the promise settles with, [handleCommand] sends no message
    and clicks nothing. *)
Lemma handleCommand_resume_frame (outcome : exn value) (p : Page) :
  sent (snd (handleCommand_resume E outcome p)) = sent p
  /\ clicked (snd (handleCommand_resume E outcome p)) = clicked p.
Proof.
  unfold handleCommand_resume, searchAndPlayYouTube, try_catch, bind, lift,
    modify, gets, ret.
  repeat case_match; simplify_eq/=;
    repeat match goal with
           | |- context [updateStatus ?m ?t ?q] =>
               let H := fresh in
               destruct (updateStatus_frame m t q) as (_ & _ & H & ? & _ & _);
               rewrite ?H; clear H
           end;
    split; congruence.
Qed.

Lemma handleCommand_send_sent (command : jsstring) (p : Page) :
  sent (handleCommand_send command p)
  = sent p ++ [{| type := js "PROCESS_COMMAND"; command := command |}].
Proof. reflexivity. Qed.

Lemma well_typed_send (command : jsstring) (p : Page) :
  well_typed p -> well_typed (handleCommand_send command p).
Proof.
  unfold well_typed. rewrite handleCommand_send_sent. intros H.
  apply Forall_app. split; [done|]. by constructor.
Qed.

Lemma step_well_typed (p p' : Page) (e : Event) :
  step E p e = Some p' -> well_typed p -> well_typed p'.
Proof.
  destruct e; unfold step; intros Hstep Hp; try (injection Hstep as <-); try done.
  - unfold sendBtn_click. case_match; [done|]. by apply well_typed_send.
  - unfold input_keypress. repeat case_match; try done. by apply well_typed_send.
  - destruct (suggestions !! n) as [text|]; [|done]. injection Hstep as <-.
    change (well_typed (handleCommand_send text (set_input_value text p))).
    by apply well_typed_send.
  - unfold document_keydown. by repeat case_match.
  - destruct (sent p !! n); [|done]. injection Hstep as <-.
    unfold well_typed. by rewrite (proj1 (handleCommand_resume_frame outcome p)).
  - destruct (timers p !! n) as [t|]; [|done]. injection Hstep as <-.
    destruct t as [[] d]; unfold run_callback; cbn [callback videos set_timers];
      repeat case_match; try done.
    all: unfold well_typed; cbn [click sent].
    all: by rewrite (proj1 (proj2 (proj2 (updateStatus_frame _ _ _)))).
Qed.

(** The listener answers a command message with what [processCommand]
    returns. *)
Lemma answer_processCommand (up : Upstream) (m : Message) (log : list Request) :
  type m = js "PROCESS_COMMAND" ->
  answer E up m log = processCommand E up (command m) log.
Proof.
  intros Hm. unfold answer, onMessage. rewrite bool_decide_true by done.
  unfold bind, try_catch, ret. rewrite processCommand_unfold.
  by destruct (processCommand_try E up (command m) log) as [[r|e] log'].
Qed.

Lemma receive_Some (n : nat) (up : Upstream) (x x' : Extension) :
  receive E n up x = Some x' ->
  exists m,
    sent (page x) !! n = Some m
    /\ page x' = page x
    /\ network x' = snd (answer E up m (network x))
    /\ answers x' = <[n := fst (answer E up m (network x))]> (answers x).
Proof.
  unfold receive. destruct (sent (page x) !! n) as [m|]; [|done].
  destruct (answers x !! n); [done|]. case_match; [done|].
  destruct (answer E up m (network x)) as [outcome log] eqn:Ha.
  intros [= <-]. exists m. rewrite Ha. by split_and!.
Qed.

Lemma initialize_consistent (u : jsstring) (vs : list Video) :
  consistent (initialize u vs).
Proof.
  split; [constructor|]. intros n outcome H. cbn [initialize answers] in H.
  by rewrite lookup_empty in H.
Qed.

Lemma occur_consistent (x x' : Extension) (o : Occurrence) :
  occur E x o = Some x' -> consistent x -> consistent x'.
Proof.
  intros Ho [Hwt Hans]. destruct o as [e|n up|n|n m]; cbn [occur] in Ho.
  - assert (exists p', step E (page x) e = Some p'
                       /\ page x' = p' /\ answers x' = answers x)
      as (p' & Hs & Hp & Ha).
    { destruct e; try done; destruct (step E (page x) _) eqn:Hs;
        cbn in Ho; simplify_eq; eauto. }
    split; [rewrite Hp; by eapply step_well_typed|].
    unfold answers_shaped. by rewrite Ha.
  - apply receive_Some in Ho as (m & Hm & Hp & _ & Ha).
    split; [by rewrite Hp|].
    intros k outcome. rewrite Ha, lookup_insert.
    case_decide; [|by apply Hans]. intros [= <-].
    assert (type m = js "PROCESS_COMMAND") as Htype.
    { unfold well_typed in Hwt. rewrite Forall_lookup in Hwt. by eapply Hwt. }
    rewrite answer_processCommand by done.
    destruct (processCommand_answers E up (command m) (network x))
      as (result & Hres & Hshape).
    exists result. split; [|done].
    by destruct (processCommand E up (command m) (network x)) as [[r|e] l];
      cbn in *; simplify_eq.
  - destruct (answers x !! n) as [outcome|]; [|done]. injection Ho as <-.
    split.
    + unfold well_typed. cbn [page settle].
      by rewrite (proj1 (handleCommand_resume_frame outcome (page x))).
    + intros k o. cbn [answers settle]. rewrite lookup_delete.
      destruct (decide (n = k)); [done|]. apply Hans.
  - destruct (sent (page x) !! n); [|done]. case_match; [done|].
    injection Ho as <-. split.
    + unfold well_typed. cbn [page settle].
      by rewrite (proj1 (handleCommand_resume_frame (Throw m) (page x))).
    + intros k o. cbn [answers settle]. rewrite lookup_delete.
      destruct (decide (n = k)); [done|]. apply Hans.
Qed.

Lemma occurs_consistent (l : list Occurrence) (x x' : Extension) :
  occurs E x l = Some x' -> consistent x -> consistent x'.
Proof.
  revert x. induction l as [|o l IH]; simpl; intros x H Hx; [by simplify_eq|].
  destruct (occur E x o) as [x1|] eqn:Ho; [|done].
  eapply IH; [done|]. by eapply occur_consistent.
Qed.

(** C3, as the code has it. An input that is empty once trimmed is dropped
    by the Send and Enter handlers: the extension is left exactly as it
    was, so no message is sent, no request goes out, and no error is
    shown. *)
Theorem blank_input_is_dropped (x : Extension) :
  trim (input_value (page x)) = [] ->
  occur E x (OnPage SendClicked) = Some x
  /\ occur E x (OnPage (KeyPressed (js "Enter"))) = Some x.
Proof.
  intros Hblank. destruct x as [p net ans done].
  cbn [occur step page network answers settled fmap option_fmap option_map].
  unfold sendBtn_click, input_keypress. cbn [page] in Hblank.
  rewrite Hblank, bool_decide_true by done. done.
Qed.

(** C7, as the code has it. In every state the extension reaches, when
    an answer on its way reaches the page, for the latest message or for
    an older one, the page renders it: the answer is one of
    [processCommand], it carries no id, and the status line then shows
    it. *)
Theorem answers_render_on_arrival (u : jsstring) (vs : list Video)
    (l : list Occurrence) (x x' : Extension) (n : nat) :
  occurs E (initialize u vs) l = Some x ->
  occur E x (Delivered n) = Some x' ->
  exists result,
    answers x !! n = Some (Ret result)
    /\ ~ Stated.has_id E result
    /\ page x' = snd (handleCommand_resume E (Ret result) (page x))
    /\ ((exists msg, result = failure msg
                     /\ status_textContent (page x') = js "Error: " ++ msg)
        \/ (exists q, result = found q
                     /\ (status_textContent (page x') = js "🎵 Searching for: " ++ q
                         \/ status_textContent (page x')
                            = js "Error: " ++ URIError_malformed E))).
Proof.
  intros Hreach Hoccur.
  destruct (occurs_consistent l _ _ Hreach (initialize_consistent u vs)) as [_ Hans].
  cbn [occur] in Hoccur.
  destruct (answers x !! n) as [outcome|] eqn:Hn; [|done].
  destruct (Hans n outcome Hn) as (result & -> & Hshape).
  injection Hoccur as <-. exists result. cbn [page settle].
  split_and!; try done.
  - by apply answers_have_no_action_no_id.
  - destruct Hshape as [[q ->]|[msg ->]].
    + right. exists q. split; [done|]. rewrite resume_found.
      by destruct (after_found_frame q (page x)) as (_ & _ & _ & ?).
    + left. exists msg. split; [done|]. rewrite resume_failure.
      by destruct (updateStatus_frame (js "Error: " ++ msg) (js "error") (page x)) as (-> & _).
Qed.

End ContentFacts.

(** *** The claims at concrete inputs *)

Section Examples.
Import Content Sample.

(** The user asks for lofi hip hop and the model replies [lofi hip hop]:
    the answer names no action, and the page searches for it all the
    same: C1 as stated fails there, on both counts. *)
Lemma answer_without_action_is_searched :
  exists x result,
    occurs engine home
      [ OnPage (Typed (js "play lofi hip hop")); OnPage SendClicked;
        Received 0 (replying (js "lofi hip hop")); Delivered 0 ] = Some x
    /\ fst (processCommand engine (replying (js "lofi hip hop"))
              (js "play lofi hip hop") []) = Ret result
    /\ ~ Stated.has_action engine result
    /\ assigned_href (page x)
       = [js "https://www.youtube.com/results?search_query=lofi%20hip%20hop"].
Proof.
  eexists _, _. split_and!; [vm_compute; reflexivity | reflexivity | | reflexivity].
  intros (a & Ha & _). discriminate Ha.
Qed.

(** The empty command: [processCommand], with a key stored, sends the
    request and answers with a success; and Send on the empty input box
    leaves the extension as it was, its status line still inviting a
    command, with no error: C3 as stated fails there. *)
Lemma empty_command_is_no_error :
  fst (processCommand engine (replying (js "music")) [] []) = Ret (found (js "music"))
  /\ snd (processCommand engine (replying (js "music")) [] [])
     = [api_request (js "sk-ant-api03-k") []]
  /\ input_value (page home) = []
  /\ occur engine home (OnPage SendClicked) = Some home
  /\ status_textContent (page home) = js "Ready - Type a command!".
Proof. by split_and!. Qed.

(** Two commands, whose answers come back in the other order: the answers
    carry no id, and the status line ends on the answer to the first
    command, over that to the second: C7 as stated fails there. *)
Lemma stale_answer_overwrites_status :
  exists x first_answer,
    occurs engine home
      [ OnPage (Typed (js "play jazz")); OnPage SendClicked;
        OnPage (Typed (js "play rock")); OnPage SendClicked;
        Received 0 (replying (js "jazz music"));
        Received 1 (replying (js "rock music"));
        Delivered 1; Delivered 0 ] = Some x
    /\ command <$> last (sent (page x)) = Some (js "play rock")
    /\ fst (processCommand engine (replying (js "jazz music")) (js "play jazz") [])
       = Ret first_answer
    /\ ~ Stated.has_id engine first_answer
    /\ status_textContent (page x) = js "🎵 Searching for: jazz music".
Proof.
  eexists _, _.
  split_and!; [vm_compute; reflexivity | reflexivity | reflexivity | | reflexivity].
  intros (i & Hi & Hne). apply Hne. by injection Hi as <-.
Qed.

Lemma blank_input_is_dropped_witness :
  let x := {| page := set_input_value (js "   ") (page home);
              network := []; answers := ∅; settled := ∅ |} in
  occur engine x (OnPage SendClicked) = Some x
  /\ occur engine x (OnPage (KeyPressed (js "Enter"))) = Some x.
Proof.
  apply (blank_input_is_dropped engine
           {| page := set_input_value (js "   ") (page home);
              network := []; answers := ∅; settled := ∅ |}).
  reflexivity.
Defined.

Lemma answers_render_on_arrival_witness :
  exists x x',
    occurs engine home
      [ OnPage (Typed (js "play jazz")); OnPage SendClicked;
        OnPage (Typed (js "play rock")); OnPage SendClicked;
        Received 0 (replying (js "jazz music"));
        Received 1 (replying (js "rock music"));
        Delivered 1 ] = Some x
    /\ occur engine x (Delivered 0) = Some x'
    /\ exists result,
         answers x !! 0 = Some (Ret result)
         /\ page x' = snd (handleCommand_resume engine (Ret result) (page x)).
Proof.
  match goal with
  | |- exists x x', ?run = Some x /\ _ =>
      let r := eval vm_compute in run in
      match r with
      | Some ?x =>
          let r' := eval vm_compute in (occur engine x (Delivered 0)) in
          match r' with
          | Some ?x' =>
              assert (run = Some x) as Hx by (vm_compute; reflexivity);
              assert (occur engine x (Delivered 0) = Some x')
                as Hx' by (vm_compute; reflexivity);
              exists x, x'
          end
      end
  end.
  split; [exact Hx|]. split; [exact Hx'|].
  destruct (answers_render_on_arrival engine _ _ _ _ _ 0 Hx Hx')
    as (result & Hres & _ & Hpage & _).
  exists result. split; [exact Hres | exact Hpage].
Defined.

End Examples.

(** *** The popup script *)

Section PopupFacts.
Import Popup.

Lemma showStatus_frame (message type : jsstring) (p : Popup) :
  storage (showStatus message type p) = storage p
  /\ status_className (showStatus message type p) = js "status " ++ type.
Proof. unfold showStatus. by case_match. Qed.

(** One click on Save: the store gets the trimmed input when that input is
    a key of the right form and the store takes it, and is left alone
    otherwise. *)
Lemma saveBtn_click_storage (written : exn unit) (p : Popup) :
  storage (saveBtn_click written p)
  = match trim (apiKeyInput_value p), written with
    | c :: k, Ret _ =>
        if startsWith (c :: k) (js "sk-ant-")
        then <["apiKey" := c :: k]> (storage p)
        else storage p
    | _, _ => storage p
    end.
Proof.
  unfold saveBtn_click.
  destruct (trim (apiKeyInput_value p)) as [|c k].
  - by destruct written; rewrite (proj1 (showStatus_frame _ _ _)).
  - destruct (startsWith (c :: k) (js "sk-ant-")); cbn [negb].
    + destruct written as [[]|m]; [|by rewrite (proj1 (showStatus_frame _ _ _))].
      cbn [setTimeout set_timers storage].
      by rewrite (proj1 (showStatus_frame _ _ _)).
    + by destruct written; rewrite (proj1 (showStatus_frame _ _ _)).
Qed.

Lemma run_callback_storage (cb : Callback) (p : Popup) :
  storage (run_callback cb p) = storage p.
Proof. by destruct cb. Qed.

Lemma step_stored_key (p : Popup) (e : Event) (k : jsstring) :
  storage (step p e) !! "apiKey" = Some k ->
  storage p !! "apiKey" = Some k \/ prefixed k.
Proof.
  assert (forall written,
            storage (saveBtn_click written p) !! "apiKey" = Some k ->
            storage p !! "apiKey" = Some k \/ prefixed k) as Hsave.
  { intros written. rewrite saveBtn_click_storage.
    destruct (trim (apiKeyInput_value p)) as [|c t]; [auto|].
    destruct written; [|auto].
    destruct (startsWith (c :: t) (js "sk-ant-")) eqn:Hpre; [|auto].
    rewrite lookup_insert_eq. intros [= <-]. by right. }
  destruct e as [text|written|key written|n]; cbn [step].
  - auto.
  - apply Hsave.
  - unfold apiKeyInput_keypress. case_match; [apply Hsave | auto].
  - destruct (timers p !! n); [|auto]. rewrite run_callback_storage. auto.
Qed.

Lemma run_stored_key (es : list Event) (p : Popup) (k : jsstring) :
  storage (run p es) !! "apiKey" = Some k ->
  storage p !! "apiKey" = Some k \/ prefixed k.
Proof.
  revert p. induction es as [|e es IH]; intros p; [auto|].
  unfold run. cbn [foldl]. intros H.
  destruct (IH (step p e) H) as [Hk|Hk]; [|auto].
  by apply step_stored_key in Hk.
Qed.

(** C9. A click on Save writes the trimmed input under [apiKey] only when
    it is not empty and starts with [sk-ant-] (and the store takes it);
    on every other input the store is left as it was and the status line
    shows an error. So after any use of the popup, the stored key is the
    one that was there before or starts with [sk-ant-]. *)
Theorem popup_stores_only_prefixed_keys (written : exn unit) (p : Popup)
    (es : list Event) :
  (if match trim (apiKeyInput_value p) with [] => false | _ => true end
      && startsWith (trim (apiKeyInput_value p)) (js "sk-ant-")
   then storage (saveBtn_click written p)
        = match written with
          | Ret _ => <["apiKey" := trim (apiKeyInput_value p)]> (storage p)
          | Throw _ => storage p
          end
   else storage (saveBtn_click written p) = storage p
        /\ status_className (saveBtn_click written p) = js "status error")
  /\ (forall k, storage (run p es) !! "apiKey" = Some k ->
                storage p !! "apiKey" = Some k
                \/ (startsWith k (js "sk-ant-") = true
                    /\ exists rest, k = js "sk-ant-" ++ rest)).
Proof.
  split.
  2: { intros k Hk. destruct (run_stored_key es p k Hk) as [H|H]; [by left|].
       right. split; [done|]. by apply startsWith_prefix. }
  rewrite saveBtn_click_storage. unfold saveBtn_click.
  destruct (trim (apiKeyInput_value p)) as [|c k]; cbn [andb].
  - split; [done|]. by rewrite (proj2 (showStatus_frame _ _ _)).
  - destruct (startsWith (c :: k) (js "sk-ant-")); cbn [negb].
    + by destruct written.
    + split; [by destruct written|]. by rewrite (proj2 (showStatus_frame _ _ _)).
Qed.

End PopupFacts.

(** From an empty store, typing a key and saving it, then typing anything
    else and saving again, leaves the key in the store. *)
Example popup_keeps_the_valid_key :
  Popup.storage
    (Popup.run (Popup.loaded ∅)
       [ Popup.Typed (js "  sk-ant-api03-k "); Popup.SaveClicked (Ret tt);
         Popup.Fired 0; Popup.Typed (js "hunter2"); Popup.KeyPressed (js "Enter") (Ret tt) ])
    !! "apiKey"
  = Some (js "sk-ant-api03-k").
Proof. reflexivity. Qed.

Lemma popup_stores_only_prefixed_keys_witness :
  Popup.storage (Popup.saveBtn_click (Ret tt) (Popup.set_input (js " sk-ant-api03-k ")
                                                   (Popup.loaded ∅)))
  = {[ "apiKey" := js "sk-ant-api03-k" ]}
  /\ Popup.storage (Popup.saveBtn_click (Ret tt) (Popup.set_input (js "hunter2")
                                                     (Popup.loaded ∅)))
     = ∅.
Proof.
  split.
  - apply (proj1 (popup_stores_only_prefixed_keys (Ret tt)
                    (Popup.set_input (js " sk-ant-api03-k ") (Popup.loaded ∅)) [])).
  - apply (proj1 (popup_stores_only_prefixed_keys (Ret tt)
                    (Popup.set_input (js "hunter2") (Popup.loaded ∅)) [])).
Defined.

(** *** Session context *)

Section SessionContextFacts.
Import SessionContext.
Context {Entry : Type}.

Lemma last_entries_snoc (n : nat) (l : list Entry) (e : Entry) :
  last_entries Entry n (last_entries Entry n l ++ [e]) = last_entries Entry n (l ++ [e]).
Proof.
  unfold last_entries. rewrite !length_app, length_drop. simpl.
  destruct (decide (length l <= n)) as [Hle|Hgt].
  - replace (length l - n) with 0 by lia. by rewrite Nat.sub_0_r.
  - destruct (decide (n = 0)) as [->|Hn].
    + rewrite !drop_ge; [done | |]; rewrite !length_app, ?length_drop; simpl; lia.
    + replace (length l - (length l - n) + 1 - n) with 1 by lia.
      replace (length l + 1 - n) with (S (length l - n)) by lia.
      rewrite !drop_app_le by (rewrite ?length_drop; lia).
      by rewrite drop_drop, Nat.add_1_r.
Qed.

Lemma record_all_snoc (es : list Entry) (e : Entry) (c : SessionContext Entry) :
  record_all Entry (es ++ [e]) c = record Entry e (record_all Entry es c).
Proof. unfold record_all. by rewrite foldl_app. Qed.

(** After recording [es] into an empty context of bound [n], the context
    holds the last [n] of them, in the order recorded. *)
Lemma record_all_entries (n : nat) (es : list Entry) :
  entries Entry (record_all Entry es (empty Entry n)) = last_entries Entry n es
  /\ bound Entry (record_all Entry es (empty Entry n)) = n.
Proof.
  induction es as [|e es IH] using rev_ind; [done|].
  rewrite record_all_snoc. destruct IH as [IHe IHb]. unfold record at 1 2.
  cbn [entries bound]. rewrite IHb, IHe. split; [apply last_entries_snoc | done].
Qed.

Lemma last_entries_twice (k n : nat) (l : list Entry) :
  last_entries Entry k (last_entries Entry n l) = last_entries Entry (min k n) l.
Proof.
  unfold last_entries. rewrite length_drop, drop_drop. f_equal. lia.
Qed.

Lemma recent_recorded (n k : nat) (es : list Entry) :
  recent Entry k (record_all Entry es (empty Entry n)) = last_entries Entry (min k n) es.
Proof.
  unfold recent. rewrite (proj1 (record_all_entries n es)). apply last_entries_twice.
Qed.

(** C6, as the session context has it. When the entries recorded do not
    exceed the bound of the context, [recent k] for [k] up to their number
    is the last [k] of them in the order recorded, and for a larger [k] it
    is all of them. *)
Theorem recent_within_bound (n k : nat) (es : list Entry) :
  length es <= n ->
  (k <= length es ->
   recent Entry k (record_all Entry es (empty Entry n)) = drop (length es - k) es)
  /\ (length es < k -> recent Entry k (record_all Entry es (empty Entry n)) = es).
Proof.
  intros Hn. rewrite recent_recorded. unfold last_entries. split; intros Hk.
  - f_equal. lia.
  - replace (length es - min k n) with 0 by lia. done.
Qed.

End SessionContextFacts.

(** Three entries recorded into a context of bound two: [recent 3] returns
    two of them, not the last three: C6 as stated fails there. *)
Lemma recent_beyond_bound :
  SessionContext.recent nat 3
    (SessionContext.record_all nat [1; 2; 3] (SessionContext.empty nat 2))
  = [2; 3]
  /\ SessionContext.recent nat 3
       (SessionContext.record_all nat [1; 2; 3] (SessionContext.empty nat 2))
     <> [1; 2; 3].
Proof. split; [reflexivity | discriminate]. Qed.

Lemma recent_within_bound_witness :
  (SessionContext.recent nat 2
     (SessionContext.record_all nat [1; 2; 3] (SessionContext.empty nat 5))
   = [2; 3])
  /\ (SessionContext.recent nat 7
        (SessionContext.record_all nat [1; 2; 3] (SessionContext.empty nat 5))
      = [1; 2; 3]).
Proof.
  split.
  - apply (recent_within_bound 5 2 [1; 2; 3]); simpl; lia.
  - apply (recent_within_bound 5 7 [1; 2; 3]); simpl; lia.
Defined.

(** *** The background script: failures, requests and installation *)

Section BackgroundFurther.
Import Background.
Variable E : Engine.

(** The error thrown on a reply that came with a status that is not ok. *)
Lemma processCommand_try_rejected (up : Upstream) (command : jsstring) (log : list Request)
    (store : gmap string jsstring) (apiKey : jsstring) (response : Response) :
  storage_get up = Ret store -> store !! "apiKey" = Some apiKey -> apiKey <> [] ->
  fetch up (api_request apiKey command) = Ret response -> ok response = false ->
  exists text,
    processCommand_try E up command log = (Throw text, log ++ [api_request apiKey command])
    /\ match json response with
       | Throw m => text = m
       | Ret error =>
         match Get E error (js "error") with
         | Throw m => text = m
         | Ret inner =>
           if isNullish inner then text = js "API request failed"
           else
             match Get E inner (js "message") with
             | Throw m => text = m
             | Ret message =>
                 if ToBoolean message
                 then match ToString message with
                      | Some s => text = s
                      | None => text = TypeError_not_primitive E
                      end
                 else text = js "API request failed"
             end
         end
       end.
Proof.
  intros Hget Hkey Hne Hfetch Hok.
  unfold processCommand_try, bind, lift, call_fetch, ret, throw.
  rewrite Hget. lazy beta iota. rewrite Hkey. destruct apiKey as [|c k]; [done|].
  rewrite Hfetch, Hok. cbn [negb].
  destruct (json response) as [error|m]; [|by eexists].
  destruct (Get E error (js "error")) as [inner|m]; [|by eexists].
  destruct (isNullish inner) eqn:Hnull; [by eexists|].
  destruct (Get E inner (js "message")) as [message|m]; [|by eexists].
  unfold ToString_or_throw. destruct (ToBoolean message); [|by eexists].
  destruct (ToString message); by eexists.
Qed.



(** X1. A reply of the model's endpoint with a status that is not ok never
    gives a success: the one request has gone out and the answer is a
    failure.  Its text is the [error.message] of the body, as a string,
    when that is not empty (or otherwise false), and [API request failed]
    when the body has no [error] or the [error] has no [message]; a body
    that is not JSON, or that is [null], or a [message] that is an object
    with a [toString] of its own, gives the text of the error this
    throws. *)
Theorem rejected_reply_is_reported (up : Upstream) (command : jsstring)
    (log : list Request) (store : gmap string jsstring) (apiKey : jsstring)
    (response : Response) :
  storage_get up = Ret store -> store !! "apiKey" = Some apiKey -> apiKey <> [] ->
  fetch up (api_request apiKey command) = Ret response -> ok response = false ->
  exists text,
    processCommand E up command log
    = (Ret (failure text), log ++ [api_request apiKey command])
    /\ (forall m, json response = Throw m -> text = m)
    /\ (forall error m,
          json response = Ret error -> Get E error (js "error") = Throw m -> text = m)
    /\ (forall error inner,
          json response = Ret error -> Get E error (js "error") = Ret inner ->
          isNullish inner = true -> text = js "API request failed")
    /\ (forall error inner message,
          json response = Ret error -> Get E error (js "error") = Ret inner ->
          Get E inner (js "message") = Ret message ->
          text = if ToBoolean message
                 then default (TypeError_not_primitive E) (ToString message)
                 else js "API request failed").
Proof.
  intros Hget Hkey Hne Hfetch Hok.
  destruct (processCommand_try_rejected up command log store apiKey response
              Hget Hkey Hne Hfetch Hok) as (text & Htry & Htext).
  exists text. split.
  { unfold processCommand, try_catch, ret. by rewrite Htry. }
  split_and!.
  - intros m Hm. by rewrite Hm in Htext.
  - intros error m Hjson Herr. by rewrite Hjson, Herr in Htext.
  - intros error inner Hjson Herr Hnull. by rewrite Hjson, Herr, Hnull in Htext.
  - intros error inner message Hjson Herr Hmsg. rewrite Hjson, Herr in Htext.
    destruct (isNullish inner) eqn:Hnull.
    { by destruct inner. }
    rewrite Hmsg in Htext. destruct (ToBoolean message); [|exact Htext].
    by destruct (ToString message).
Qed.


(** X3. Whatever message the listener receives and whatever the upstream
    calls do, it puts at most one request on the network and leaves the
    earlier ones as they were; a message that is not a command gets no
    response and makes no request; and a request, when one is made, is a
    POST to the messages endpoint of the model, for the command of the
    message, with the stored key (which is then not empty) in its
    [x-api-key] header. *)
Theorem requests_go_to_the_model_only (up : Upstream) (request : Message)
    (log : list Request) :
  exists new,
    snd (onMessage E up request log) = log ++ new
    /\ length new <= 1
    /\ (type request <> js "PROCESS_COMMAND" ->
        new = [] /\ fst (onMessage E up request log) = Ret None)
    /\ forall r, r ∈ new ->
         url r = js "https://api.anthropic.com/v1/messages"
         /\ method r = js "POST"
         /\ exists store apiKey,
              storage_get up = Ret store /\ store !! "apiKey" = Some apiKey
              /\ apiKey <> []
              /\ r = api_request apiKey (command request)
              /\ headers r = [ (js "Content-Type", js "application/json");
                               (js "x-api-key", apiKey);
                               (js "anthropic-version", js "2023-06-01") ].
Proof.
  unfold onMessage. case_bool_decide as Htype.
  - unfold bind, try_catch, ret. rewrite processCommand_unfold.
    destruct (processCommand_try_cases E up (command request) log)
      as [(m & _ & Htry) | [(store & _ & _ & Htry) | (store & k & Hs & Hk & Hne & Hlog & _)]].
    + rewrite Htry. exists []. rewrite app_nil_r. split_and!; try done.
      * simpl; lia.
      * intros r Hr. by apply elem_of_nil in Hr.
    + rewrite Htry. exists []. rewrite app_nil_r. split_and!; try done.
      * simpl; lia.
      * intros r Hr. by apply elem_of_nil in Hr.
    + exists [api_request k (command request)]. split_and!; try done.
      * by destruct (processCommand_try E up (command request) log) as [[r|m] l].
      * intros r Hr. apply list_elem_of_singleton in Hr as ->.
        split_and!; try done. by exists store, k.
  - exists []. rewrite app_nil_r. split_and!; try done.
    + simpl; lia.
    + intros r Hr. by apply elem_of_nil in Hr.
Qed.


End BackgroundFurther.

Lemma rejected_reply_is_reported_witness :
  exists text log',
    Background.processCommand Sample.engine
      {| Background.storage_get := Ret Sample.stored_key;
         Background.fetch := fun _ =>
           Ret {| Background.ok := false;
                  Background.json :=
                    Ret (VObj [ (js "type", VStr (js "error"));
                                (js "error",
                                 VObj [ (js "type", VStr (js "authentication_error"));
                                        (js "message", VStr (js "invalid x-api-key")) ]) ]) |} |}
      (js "play jazz") []
    = (Ret (Background.failure text), log')
    /\ text = js "invalid x-api-key".
Proof.
  destruct (rejected_reply_is_reported Sample.engine
              {| Background.storage_get := Ret Sample.stored_key;
                 Background.fetch := fun _ =>
                   Ret {| Background.ok := false;
                          Background.json :=
                            Ret (VObj [ (js "type", VStr (js "error"));
                                        (js "error",
                                         VObj [ (js "type", VStr (js "authentication_error"));
                                                (js "message", VStr (js "invalid x-api-key")) ]) ]) |} |}
              (js "play jazz") [] Sample.stored_key (js "sk-ant-api03-k") _
              eq_refl eq_refl ltac:(discriminate) eq_refl eq_refl)
    as (text & Hpc & _ & _ & _ & Htext).
  eexists text, _. split; [exact Hpc|].
  exact (Htext _ _ _ eq_refl eq_refl eq_refl).
Defined.

(** *** Trimming twice *)

Lemma trimStart_id (s : jsstring) :
  (forall c r, s = c :: r -> isWhiteSpace c = false) -> trimStart s = s.
Proof.
  destruct s as [|c r]; [done|]. intros H. simpl. by rewrite (H c r eq_refl).
Qed.

Lemma trim_idempotent (s : jsstring) : trim (trim s) = trim s.
Proof.
  destruct (trim_spec s) as (_ & Hhead & Hlast).
  unfold trim at 1. rewrite (trimStart_id (trim s)) by done.
  unfold trimEnd. rewrite trimStart_id; [apply rev_involutive|].
  intros c r Hrev. apply (Hlast (rev r) c).
  by rewrite <- (rev_involutive (trim s)), Hrev.
Qed.

(** *** The popup and the background script *)

Section PopupFurther.
Import Popup.

(** The keys the popup writes are trimmed, besides starting with the
    prefix. *)
Lemma step_stored_key_trimmed (p : Popup) (e : Event) (k : jsstring) :
  storage (step p e) !! "apiKey" = Some k ->
  storage p !! "apiKey" = Some k \/ (prefixed k /\ trim k = k).
Proof.
  assert (forall written,
            storage (saveBtn_click written p) !! "apiKey" = Some k ->
            storage p !! "apiKey" = Some k \/ (prefixed k /\ trim k = k)) as Hsave.
  { intros written. rewrite saveBtn_click_storage.
    destruct (trim (apiKeyInput_value p)) as [|c t] eqn:Htrim; [auto|].
    destruct written; [|auto].
    destruct (startsWith (c :: t) (js "sk-ant-")) eqn:Hpre; [|auto].
    rewrite lookup_insert_eq. intros [= <-]. right. split; [done|].
    rewrite <- Htrim. apply trim_idempotent. }
  destruct e as [text|written|key written|n]; cbn [step].
  - auto.
  - apply Hsave.
  - unfold apiKeyInput_keypress. case_match; [apply Hsave | auto].
  - destruct (timers p !! n); [|auto]. rewrite run_callback_storage. auto.
Qed.

Lemma run_stored_key_trimmed (es : list Event) (p : Popup) (k : jsstring) :
  storage (run p es) !! "apiKey" = Some k ->
  storage p !! "apiKey" = Some k \/ (prefixed k /\ trim k = k).
Proof.
  revert p. induction es as [|e es IH]; intros p; [auto|].
  unfold run. cbn [foldl]. intros H.
  destruct (IH (step p e) H) as [Hk|Hk]; [|auto].
  by apply step_stored_key_trimmed in Hk.
Qed.

Lemma prefixed_nonempty (k : jsstring) : prefixed k -> k <> [].
Proof. by intros H ->. Qed.


(** X6. Opening the popup again shows the stored key, and saving what it
    shows changes nothing: after any use of the popup that started on an
    empty store, the input of a popup loaded over the store holds the
    stored key (and is empty when there is none), and a click on Save then
    leaves the store as it is. *)
Theorem reopened_popup_keeps_the_key (es : list Event) (written : exn unit) :
  let store := storage (run (loaded ∅) es) in
  apiKeyInput_value (loaded store) = default [] (store !! "apiKey")
  /\ storage (saveBtn_click written (loaded store)) = store.
Proof.
  intros store. rewrite saveBtn_click_storage. cbn [loaded apiKeyInput_value storage].
  destruct (store !! "apiKey") as [k|] eqn:Hk; [|done].
  destruct (run_stored_key_trimmed es (loaded ∅) k Hk) as [Habs|[Hpre Htrim]].
  { cbn [loaded storage] in Habs. by rewrite lookup_empty in Habs. }
  destruct k as [|c k]; [by apply prefixed_nonempty in Hpre|].
  split; [done|]. rewrite Htrim, Hpre.
  destruct written; [|done]. by apply insert_id.
Qed.

(** X7. The mask is never saved as a key: once the timer of a successful
    save has put the bullets in the input, a click on Save leaves the
    store as it is and shows [Invalid API key format] as an error. *)
Theorem mask_is_never_saved (written : exn unit) (p : Popup) :
  apiKeyInput_value (run_callback MaskInput p) = js "••••••••••••••••"
  /\ storage (saveBtn_click written (run_callback MaskInput p)) = storage p
  /\ status_textContent (saveBtn_click written (run_callback MaskInput p))
     = js "Invalid API key format"
  /\ status_className (saveBtn_click written (run_callback MaskInput p))
     = js "status error".
Proof.
  split; [done|].
  assert (trim (js "••••••••••••••••") = js "••••••••••••••••") as Htrim
    by (vm_compute; reflexivity).
  assert (startsWith (js "••••••••••••••••") (js "sk-ant-") = false) as Hpre
    by (vm_compute; reflexivity).
  unfold saveBtn_click. cbn [run_callback set_input apiKeyInput_value].
  rewrite Htrim. destruct (js "••••••••••••••••") eqn:Hmask; [discriminate Hmask|].
  rewrite Hpre. cbn [negb]. done.
Qed.

End PopupFurther.

(** *** The content script: what every run of the page keeps *)

Section ContentFurther.
Import Content.
Variable E : Engine.

(** The four ways [handleCommand] ends after its [await]. *)
Lemma handleCommand_resume_cases (outcome : exn value) (p : Page) :
  (exists m, snd (handleCommand_resume E outcome p)
             = updateStatus (js "Error: " ++ m) (js "error") p)
  \/ (exists msg, snd (handleCommand_resume E outcome p)
                  = updateStatus msg (js "success") p)
  \/ (exists msg q e,
        encodeURIComponent q = Some e
        /\ snd (handleCommand_resume E outcome p)
           = setTimeout PlayFirstVideo 1500
               (assign_href (results_url e) (updateStatus msg (js "success") p)))
  \/ (exists msg m,
        snd (handleCommand_resume E outcome p)
        = updateStatus (js "Error: " ++ m) (js "error")
            (updateStatus msg (js "success") p)).
Proof.
  unfold handleCommand_resume, searchAndPlayYouTube, try_catch, bind, lift,
    modify, gets, ret.
  destruct outcome as [response|m]; [|left; eexists; reflexivity].
  destruct (Get E response (js "success")) as [success|m]; [|left; eexists; reflexivity].
  destruct (ToBoolean success).
  - destruct (Get E response (js "message")) as [message|m];
      [|left; eexists; reflexivity].
    destruct (DOMString_of E message) as [shown|m]; [|left; eexists; reflexivity].
    cbn [fst snd].
    destruct (Get E response (js "searchQuery")) as [searchQuery|m];
      [|right; right; right; eexists _, _; reflexivity].
    destruct (ToBoolean searchQuery); [|right; left; eexists; reflexivity].
    destruct (ToString_or_throw E searchQuery) as [text|m];
      [|right; right; right; eexists _, _; reflexivity].
    destruct (encodeURIComponent text) as [e|] eqn:He.
    + right; right; left. exists shown, text, e.
      split; [exact He|]. destruct (includes _ _); reflexivity.
    + right; right; right. eexists _, _. reflexivity.
  - destruct (Get E response (js "error")) as [error|m]; [|left; eexists; reflexivity].
    destruct (ToString_or_throw E error) as [text|m]; left; eexists; reflexivity.
Qed.

(** What [updateStatus] leaves alone, and the timer it sets for a success
    or an error. *)
Lemma updateStatus_sent (message type : jsstring) (p : Page) :
  sent (updateStatus message type p) = sent p.
Proof. unfold updateStatus. by case_match. Qed.

Lemma updateStatus_clicked (message type : jsstring) (p : Page) :
  clicked (updateStatus message type p) = clicked p.
Proof. unfold updateStatus. by case_match. Qed.

Lemma updateStatus_assigned_href (message type : jsstring) (p : Page) :
  assigned_href (updateStatus message type p) = assigned_href p.
Proof. unfold updateStatus. by case_match. Qed.

Lemma updateStatus_content_display (message type : jsstring) (p : Page) :
  content_display (updateStatus message type p) = content_display p.
Proof. unfold updateStatus. by case_match. Qed.

Lemma updateStatus_toggle_textContent (message type : jsstring) (p : Page) :
  toggle_textContent (updateStatus message type p) = toggle_textContent p.
Proof. unfold updateStatus. by case_match. Qed.

Lemma updateStatus_status_className (message type : jsstring) (p : Page) :
  status_className (updateStatus message type p) = js "yt-ai-status " ++ type.
Proof. unfold updateStatus. by case_match. Qed.

Lemma updateStatus_status_textContent (message type : jsstring) (p : Page) :
  status_textContent (updateStatus message type p) = message.
Proof. unfold updateStatus. by case_match. Qed.

Lemma updateStatus_timers (message type : jsstring) (p : Page) :
  timers (updateStatus message type p)
  = timers p
    ++ (if bool_decide (type = js "success") || bool_decide (type = js "error")
        then [{| callback := ResetStatus; delay := 5000 |}] else []).
Proof.
  unfold updateStatus. case_match; [done|].
  cbn [set_status timers]. by rewrite app_nil_r.
Qed.

(** The suggestions are commands as the Send button would send them. *)
Lemma suggestions_trimmed (n : nat) (text : jsstring) :
  suggestions !! n = Some text -> text <> [] /\ trim text = text.
Proof.
  destruct n as [|[|[|n]]]; intros H; [| | |done];
    apply (inj Some) in H; subst text;
    (split; [vm_compute; discriminate | vm_compute; reflexivity]).
Qed.

(** What an event does to the page, in the terms of what the handlers are
    made of: a property that each of these keeps is kept by every event. *)
Lemma step_preserves (P : Page -> Prop) :
  (forall p text, P p -> P (set_input_value text p)) ->
  (forall p m t, P p -> t = js "loading" \/ t = js "success" \/ t = js "error" ->
                 P (updateStatus m t p)) ->
  (forall p c, P p -> c <> [] -> trim c = c ->
               P (sendMessage {| type := js "PROCESS_COMMAND"; command := c |} p)) ->
  (forall p, P p -> P (set_panel (js "block") (js "▼") p)) ->
  (forall p, P p -> P (set_panel (js "none") (js "▲") p)) ->
  (forall p, P p -> P (set_input_focused true p)) ->
  (forall p q e, P p -> sent p <> [] -> encodeURIComponent q = Some e ->
                 P (setTimeout PlayFirstVideo 1500 (assign_href (results_url e) p))) ->
  (forall p n d, P p -> timers p !! n = Some {| callback := ResetStatus; delay := d |} ->
                 P (set_status (js "Ready - Type a command!") (js "yt-ai-status")
                      (set_timers (delete n (timers p)) p))) ->
  (forall p n d, P p -> timers p !! n = Some {| callback := PlayFirstVideo; delay := d |} ->
                 videos p = [] -> P (set_timers (delete n (timers p)) p)) ->
  (forall p n d v vs, P p ->
                 timers p !! n = Some {| callback := PlayFirstVideo; delay := d |} ->
                 videos p = v :: vs ->
                 P (click v (updateStatus (js "Playing: " ++ textContent v) (js "success")
                               (set_timers (delete n (timers p)) p)))) ->
  (forall p n d, P p -> timers p !! n = Some {| callback := Welcome; delay := d |} ->
                 P (updateStatus (js "AI Agent ready! Press K to focus command box.")
                      (js "success") (set_timers (delete n (timers p)) p))) ->
  (forall p u vs, P p -> P (set_document u vs p)) ->
  forall p e p', step E p e = Some p' -> P p -> P p'.
Proof.
  intros Hinput Hstatus Hsend Hshow Hhide Hfocus Hsearch Hreset Hnoplay Hplay Hwelcome
    Hshown p e p' Hstep Hp.
  assert (forall c q, P q -> c <> [] -> trim c = c ->
                      P (set_input_value [] (handleCommand_send c q))) as Hcommand.
  { intros c q Hq Hc Htrim. apply Hinput. unfold handleCommand_send.
    apply Hsend; [|done..]. apply Hstatus; auto. }
  assert (P (sendBtn_click p)) as Hclick.
  { unfold sendBtn_click. destruct (trim (input_value p)) eqn:Htrim; [done|].
    apply Hcommand; [done|done|]. rewrite <- Htrim. apply trim_idempotent. }
  destruct e as [text| |key|n| |key tagName|n outcome|n|u vs]; cbn [step] in Hstep.
  - injection Hstep as <-. by apply Hinput.
  - by injection Hstep as <-.
  - injection Hstep as <-. unfold input_keypress. case_bool_decide; [|done].
    exact Hclick.
  - destruct (suggestions !! n) as [text|] eqn:Hn; [|done]. injection Hstep as <-.
    destruct (suggestions_trimmed n text Hn). unfold suggestion_click.
    apply Hcommand; auto.
  - injection Hstep as <-. unfold toggle_click. case_bool_decide; auto.
  - injection Hstep as <-. unfold document_keydown.
    repeat case_match; auto.
  - destruct (sent p !! n) as [message|] eqn:Hn; [|done]. injection Hstep as <-.
    assert (sent p <> []) as Hsent by (intros Hnil; by rewrite Hnil in Hn).
    destruct (handleCommand_resume_cases outcome p)
      as [(m & ->) | [(msg & ->) | [(msg & q & e & He & ->) | (msg & m & ->)]]].
    + apply Hstatus; auto.
    + apply Hstatus; auto.
    + apply (Hsearch _ q e); [apply Hstatus; auto| |exact He].
      by rewrite updateStatus_sent.
    + apply Hstatus; [apply Hstatus|]; auto.
  - destruct (timers p !! n) as [[cb d]|] eqn:Hn; [|done]. injection Hstep as <-.
    destruct cb; cbn [callback run_callback].
    + by eapply Hreset.
    + change (videos (set_timers (delete n (timers p)) p)) with (videos p).
      destruct (videos p) as [|v vs] eqn:Hvs; [by eapply Hnoplay | by eapply Hplay].
    + by eapply Hwelcome.
  - injection Hstep as <-. by apply Hshown.
Qed.

Lemma steps_preserves (P : Page -> Prop) :
  (forall p e p', step E p e = Some p' -> P p -> P p') ->
  forall es p p', steps E p es = Some p' -> P p -> P p'.
Proof.
  intros Hstep es. induction es as [|e es IH]; intros p p' Hrun Hp; simpl in Hrun.
  - by injection Hrun as <-.
  - destruct (step E p e) as [p1|] eqn:He; [|done]. eauto.
Qed.

Lemma status_classes :
  js "yt-ai-status " ++ js "loading" = js "yt-ai-status loading"
  /\ js "yt-ai-status " ++ js "success" = js "yt-ai-status success"
  /\ js "yt-ai-status " ++ js "error" = js "yt-ai-status error".
Proof. split_and!; vm_compute; reflexivity. Qed.

(** X8. A command that is not blank is sent once, trimmed: a click on Send
    with an input that is not empty once trimmed sends one message, the
    command of which is the trimmed input, empties the input and shows
    [Processing...]; it sets no timer, asks for no navigation and clicks
    nothing.  Enter in the input does the same, and any other key
    nothing. *)
Theorem command_is_sent_trimmed (p : Page) :
  trim (input_value p) <> [] ->
  sent (sendBtn_click p)
  = sent p ++ [{| type := js "PROCESS_COMMAND"; command := trim (input_value p) |}]
  /\ input_value (sendBtn_click p) = []
  /\ status_textContent (sendBtn_click p) = js "Processing..."
  /\ status_className (sendBtn_click p) = js "yt-ai-status loading"
  /\ timers (sendBtn_click p) = timers p
  /\ assigned_href (sendBtn_click p) = assigned_href p
  /\ clicked (sendBtn_click p) = clicked p
  /\ input_keypress (js "Enter") p = sendBtn_click p
  /\ (forall key, key <> js "Enter" -> input_keypress key p = p).
Proof.
  intros Hcommand. destruct status_classes as (Hloading & _ & _).
  unfold input_keypress, sendBtn_click.
  destruct (trim (input_value p)) as [|c k] eqn:Htrim; [done|].
  rewrite bool_decide_true by reflexivity.
  cbn [set_input_value handleCommand_send sendMessage sent input_value status_textContent
       status_className timers assigned_href clicked].
  rewrite updateStatus_sent, updateStatus_status_textContent, updateStatus_status_className,
    updateStatus_timers, updateStatus_assigned_href, updateStatus_clicked, Hloading.
  split_and!; try reflexivity.
  - rewrite bool_decide_false by (vm_compute; discriminate).
    rewrite (bool_decide_false (js "loading" = js "error")) by (vm_compute; discriminate).
    apply app_nil_r.
  - intros key Hkey. rewrite bool_decide_false by exact Hkey. reflexivity.
Qed.

(** X9. A click on a suggestion does what typing its text and clicking
    Send does: one message with that text as its command, and an empty
    input; there are three suggestions and no fourth. *)
Theorem suggestion_is_typed_and_sent (n : nat) (text : jsstring) (p : Page) :
  suggestions !! n = Some text ->
  step E p (SuggestionClicked n) = Some (sendBtn_click (set_input_value text p))
  /\ sent (sendBtn_click (set_input_value text p))
     = sent p ++ [{| type := js "PROCESS_COMMAND"; command := text |}]
  /\ input_value (sendBtn_click (set_input_value text p)) = []
  /\ n < 3.
Proof.
  intros Hn. destruct (suggestions_trimmed n text Hn) as [Hne Htrim].
  cbn [step]. rewrite Hn. unfold sendBtn_click, suggestion_click.
  cbn [set_input_value input_value]. rewrite Htrim.
  destruct text as [|c k]; [done|]. split_and!; try done.
  apply lookup_lt_Some in Hn. exact Hn.
Qed.

(** X10. Every message the page ever sends is a command that is not blank:
    in every state a run of the page reaches, each message sent has the
    type [PROCESS_COMMAND] and a command that is not empty and has no
    white space around it. *)
Theorem sent_commands_are_never_blank (u : jsstring) (vs : list Video)
    (es : list Event) (p : Page) :
  steps E (started u vs) es = Some p ->
  Forall (fun m => type m = js "PROCESS_COMMAND"
                   /\ command m <> [] /\ trim (command m) = command m)
         (sent p).
Proof.
  intros Hrun.
  eapply (steps_preserves
            (fun p => Forall (fun m => type m = js "PROCESS_COMMAND"
                                       /\ command m <> []
                                       /\ trim (command m) = command m) (sent p)));
    [|exact Hrun|by constructor].
  apply step_preserves; intros q; intros;
    cbn [click sendMessage sent]; rewrite ?updateStatus_sent; try assumption.
  apply Forall_app. split; [assumption|]. by constructor.
Qed.

(** Firing a timer leaves the timers of the other kinds pending. *)
Lemma elem_of_delete_other (ts : list Timer) (n : nat) (t t' : Timer) :
  ts !! n = Some t -> t' ∈ ts -> t' <> t -> t' ∈ delete n ts.
Proof.
  intros Hn Hin Hne. rewrite <- (take_drop_middle ts n t Hn) in Hin.
  rewrite delete_take_drop.
  apply elem_of_app in Hin as [Hin|Hin]; [apply elem_of_app; by left|].
  apply elem_of_cons in Hin as [->|Hin]; [done|]. apply elem_of_app; by right.
Qed.

(** X11. The status line never keeps a success or an error for good: in
    every state a run of the page reaches, the class of the status line is
    one of the four the script writes ([info], the default of
    [updateStatus], is not among them), and while it is that of a success
    or of an error, the 5000 ms timer that resets the line is pending. *)
Theorem status_reset_is_always_pending (u : jsstring) (vs : list Video)
    (es : list Event) (p : Page) :
  steps E (started u vs) es = Some p ->
  (status_className p = js "yt-ai-status"
   \/ status_className p = js "yt-ai-status loading"
   \/ status_className p = js "yt-ai-status success"
   \/ status_className p = js "yt-ai-status error")
  /\ (status_className p = js "yt-ai-status success"
      \/ status_className p = js "yt-ai-status error" ->
      {| callback := ResetStatus; delay := 5000 |} ∈ timers p).
Proof.
  intros Hrun. destruct status_classes as (Hloading & Hsuccess & Herror).
  assert (js "yt-ai-status" <> js "yt-ai-status success"
          /\ js "yt-ai-status" <> js "yt-ai-status error"
          /\ js "yt-ai-status loading" <> js "yt-ai-status success"
          /\ js "yt-ai-status loading" <> js "yt-ai-status error")
    as (Hn1 & Hn2 & Hn3 & Hn4) by (split_and!; vm_compute; discriminate).
  assert (forall c : jsstring,
            c = js "yt-ai-status" \/ c = js "yt-ai-status loading" ->
            c = js "yt-ai-status success" \/ c = js "yt-ai-status error" -> False)
    as Hquiet.
  { intros c [-> | ->] [Hc|Hc];
      [exact (Hn1 Hc) | exact (Hn2 Hc) | exact (Hn3 Hc) | exact (Hn4 Hc)]. }
  assert (forall q m t,
            t = js "success" \/ t = js "error" ->
            (status_className (updateStatus m t q) = js "yt-ai-status"
             \/ status_className (updateStatus m t q) = js "yt-ai-status loading"
             \/ status_className (updateStatus m t q) = js "yt-ai-status success"
             \/ status_className (updateStatus m t q) = js "yt-ai-status error")
            /\ (status_className (updateStatus m t q) = js "yt-ai-status success"
                \/ status_className (updateStatus m t q) = js "yt-ai-status error" ->
                {| callback := ResetStatus; delay := 5000 |}
                ∈ timers (updateStatus m t q))) as Hshown.
  { intros q m t Ht. rewrite updateStatus_status_className, updateStatus_timers.
    destruct Ht as [Ht|Ht]; subst t.
    - rewrite Hsuccess, bool_decide_true by reflexivity.
      split; [right; right; left; reflexivity|]. intros _.
      apply elem_of_app. right. apply list_elem_of_singleton. reflexivity.
    - rewrite Herror, (bool_decide_true (js "error" = js "error")), orb_true_r
        by reflexivity.
      split; [right; right; right; reflexivity|]. intros _.
      apply elem_of_app. right. apply list_elem_of_singleton. reflexivity. }
  eapply (steps_preserves
            (fun p =>
               (status_className p = js "yt-ai-status"
                \/ status_className p = js "yt-ai-status loading"
                \/ status_className p = js "yt-ai-status success"
                \/ status_className p = js "yt-ai-status error")
               /\ (status_className p = js "yt-ai-status success"
                   \/ status_className p = js "yt-ai-status error" ->
                   {| callback := ResetStatus; delay := 5000 |} ∈ timers p)));
    [|exact Hrun|].
  2: { cbn [started setTimeout set_timers createCommandBox status_className].
       split; [left; reflexivity|].
       intros Hc. destruct (Hquiet _ (or_introl eq_refl) Hc). }
  apply step_preserves; intros q; intros; try assumption.
  - destruct H0 as [Ht|Ht]; [subst t|exact (Hshown q m t Ht)].
    rewrite updateStatus_status_className, Hloading.
    split; [right; left; reflexivity|].
    intros Hc. destruct (Hquiet _ (or_intror eq_refl) Hc).
  - destruct H as [Hclass Hin]. split; [exact Hclass|].
    cbn [setTimeout set_timers assign_href timers status_className] in *.
    intros Hc. apply elem_of_app. left. exact (Hin Hc).
  - cbn [set_status set_timers status_className timers]. split; [left; reflexivity|].
    intros Hc. destruct (Hquiet _ (or_introl eq_refl) Hc).
  - destruct H as [Hclass Hin]. split; [exact Hclass|].
    cbn [set_timers status_className timers] in *. intros Hc.
    eapply elem_of_delete_other; [exact H0|exact (Hin Hc)|discriminate].
  - cbn [click status_className timers]. apply Hshown. left; reflexivity.
  - apply Hshown. left; reflexivity.
Qed.


(** Firing a timer takes it, and no other, out of the count of the timers
    of a search. *)
Lemma filter_delete_length (f : Timer -> bool) (ts : list Timer) (n : nat) (t : Timer) :
  ts !! n = Some t ->
  length (List.filter f (delete n ts)) + (if f t then 1 else 0)
  = length (List.filter f ts).
Proof.
  intros Hn. rewrite <- (take_drop_middle ts n t Hn) at 2.
  rewrite delete_take_drop, !List.filter_app, !length_app. simpl.
  destruct (f t); simpl; lia.
Qed.

Lemma updateStatus_pending_plays (message type : jsstring) (p : Page) :
  pending_plays (updateStatus message type p) = pending_plays p.
Proof.
  unfold pending_plays. rewrite updateStatus_timers, List.filter_app, length_app.
  case_match; simpl; lia.
Qed.


(** Without a command, nothing is searched and nothing is clicked: in every
    state a run of the page reaches in which no message has been sent, no
    navigation has been asked for, no timer of a search is pending and no
    link has been clicked. *)
Lemma nothing_clicked_without_command (u : jsstring) (vs : list Video)
    (es : list Event) (p : Page) :
  steps E (started u vs) es = Some p ->
  sent p = [] ->
  clicked p = [] /\ assigned_href p = [] /\ pending_plays p = 0.
Proof.
  intros Hrun.
  eapply (steps_preserves
            (fun p => sent p = [] ->
                      clicked p = [] /\ assigned_href p = [] /\ pending_plays p = 0));
    [|exact Hrun|intros _; split_and!; reflexivity].
  apply (step_preserves
           (fun p => sent p = [] ->
                     clicked p = [] /\ assigned_href p = [] /\ pending_plays p = 0));
    intros q; intros; try (apply H; assumption).
  - rewrite updateStatus_sent in *.
    rewrite updateStatus_clicked, updateStatus_assigned_href, updateStatus_pending_plays.
    auto.
  - cbn [sendMessage sent] in *. by destruct (sent q).
  - cbn [setTimeout set_timers assign_href sent] in *. done.
  - pose proof (filter_delete_length isPlayFirstVideo _ _ _ H0) as Hd.
    destruct (H H1) as (Hc & Ha & Hp). unfold pending_plays in *.
    cbn [set_status set_timers clicked timers assigned_href] in *.
    cbn [isPlayFirstVideo callback] in Hd. split_and!; [done|done|lia].
  - pose proof (filter_delete_length isPlayFirstVideo _ _ _ H0) as Hd.
    destruct (H H2) as (Hc & Ha & Hp). unfold pending_plays in *.
    cbn [isPlayFirstVideo callback] in Hd. lia.
  - pose proof (filter_delete_length isPlayFirstVideo _ _ _ H0) as Hd.
    cbn [click sent] in *. rewrite updateStatus_sent in *.
    destruct (H H2) as (Hc & Ha & Hp). unfold pending_plays in *.
    cbn [isPlayFirstVideo callback] in Hd. lia.
  - pose proof (filter_delete_length isPlayFirstVideo _ _ _ H0) as Hd.
    rewrite updateStatus_sent in *.
    rewrite updateStatus_clicked, updateStatus_assigned_href, updateStatus_pending_plays.
    destruct (H H1) as (Hc & Ha & Hp). unfold pending_plays in *.
    cbn [set_timers clicked timers assigned_href] in *.
    cbn [isPlayFirstVideo callback] in Hd. split_and!; [done|done|lia].
Qed.
(** X12. A command that is answered never stays at [Processing...]:
    whatever the promise of the message settles with, [handleCommand] ends
    with the status line in the style of a success or of an error, and the
    timer that resets it set.  When the promise rejects, the line shows
    [Error: ] and the text of the rejection; when it resolves with no
    response at all, the text of the error that reading [success] of it
    throws; and when it resolves with a failure, the [error] of the
    failure as a string, or the text of the [TypeError] when that is an
    object with a [toString] of its own. *)
Theorem answered_command_leaves_processing (outcome : exn value) (p : Page) :
  (status_className (snd (handleCommand_resume E outcome p)) = js "yt-ai-status success"
   \/ status_className (snd (handleCommand_resume E outcome p)) = js "yt-ai-status error")
  /\ {| callback := ResetStatus; delay := 5000 |}
     ∈ timers (snd (handleCommand_resume E outcome p))
  /\ (forall m, outcome = Throw m ->
         status_textContent (snd (handleCommand_resume E outcome p)) = js "Error: " ++ m
         /\ status_className (snd (handleCommand_resume E outcome p))
            = js "yt-ai-status error")
  /\ (forall response, outcome = Ret response -> isNullish response = true ->
         status_textContent (snd (handleCommand_resume E outcome p))
         = js "Error: " ++ TypeError_nullish E response (js "success")
         /\ status_className (snd (handleCommand_resume E outcome p))
            = js "yt-ai-status error")
  /\ (forall response success error,
         outcome = Ret response ->
         Get E response (js "success") = Ret success -> ToBoolean success = false ->
         Get E response (js "error") = Ret error ->
         status_textContent (snd (handleCommand_resume E outcome p))
         = js "Error: " ++ default (TypeError_not_primitive E) (ToString error)
         /\ (forall text, error = VStr text -> ToString error = Some text)
         /\ (forall fields, error = VObj fields ->
               ToString error
               = match lookup_field (js "toString") fields with
                 | Some _ => None
                 | None => Some (js "[object Object]")
                 end)).
Proof.
  destruct status_classes as (_ & Hsuccess & Herror).
  assert (forall m q, {| callback := ResetStatus; delay := 5000 |}
                      ∈ timers (updateStatus m (js "success") q)) as Hs.
  { intros m q. rewrite updateStatus_timers, bool_decide_true by reflexivity.
    apply elem_of_app. right. apply list_elem_of_singleton. reflexivity. }
  assert (forall m q, {| callback := ResetStatus; delay := 5000 |}
                      ∈ timers (updateStatus m (js "error") q)) as He.
  { intros m q.
    rewrite updateStatus_timers, (bool_decide_true (js "error" = js "error")), orb_true_r
      by reflexivity.
    apply elem_of_app. right. apply list_elem_of_singleton. reflexivity. }
  split_and!.
  - destruct (handleCommand_resume_cases outcome p)
      as [(m & ->) | [(msg & ->) | [(msg & q & e & _ & ->) | (msg & m & ->)]]];
      cbn [setTimeout set_timers assign_href status_className];
      rewrite updateStatus_status_className, ?Hsuccess, ?Herror;
      [right | left | left | right]; reflexivity.
  - destruct (handleCommand_resume_cases outcome p)
      as [(m & ->) | [(msg & ->) | [(msg & q & e & _ & ->) | (msg & m & ->)]]].
    + apply He.
    + apply Hs.
    + cbn [setTimeout set_timers assign_href timers]. apply elem_of_app. left. apply Hs.
    + apply He.
  - intros m ->. cbn [handleCommand_resume try_catch lift snd bind modify].
    unfold handleCommand_resume, try_catch, bind, lift, modify. cbn [snd].
    rewrite updateStatus_status_textContent, updateStatus_status_className, Herror.
    split; reflexivity.
  - intros response -> Hnull.
    unfold handleCommand_resume, try_catch, bind, lift, modify.
    destruct response; try discriminate Hnull; cbn [Get snd];
      rewrite updateStatus_status_textContent, updateStatus_status_className, Herror;
      split; reflexivity.
  - intros response success error -> Hread Hfalse Hget.
    unfold handleCommand_resume, try_catch, bind, lift, modify, ToString_or_throw.
    rewrite Hread, Hfalse, Hget.
    split_and!.
    + destruct (ToString error); cbn [snd default from_option id];
        rewrite updateStatus_status_textContent; reflexivity.
    + by intros text ->.
    + by intros fields ->.
Qed.

(** X13. The page never asks for a navigation to anywhere but a search on
    YouTube: in every state a run of the page reaches, whatever the
    answers its messages got, each address assigned to the location is the
    address of the results page followed by the [encodeURIComponent] of a
    query. *)
Theorem page_navigates_to_searches_only (u : jsstring) (vs : list Video)
    (es : list Event) (p : Page) :
  steps E (started u vs) es = Some p ->
  Forall (fun address =>
            exists q e, encodeURIComponent q = Some e /\ address = results_url e)
         (assigned_href p).
Proof.
  intros Hrun.
  apply (steps_preserves
           (fun p => Forall (fun address =>
                               exists q e, encodeURIComponent q = Some e
                                           /\ address = results_url e)
                       (assigned_href p)))
    with (es := es) (p := started u vs); [|exact Hrun|constructor].
  apply (step_preserves
           (fun p => Forall (fun address =>
                               exists q e, encodeURIComponent q = Some e
                                           /\ address = results_url e)
                       (assigned_href p)));
    intros q; intros;
    cbn [click setTimeout set_timers assign_href assigned_href set_status set_panel
         set_input_value set_input_focused sendMessage set_document];
    rewrite ?updateStatus_assigned_href; try assumption.
  apply Forall_app. split; [assumption|]. constructor; [|constructor].
  eexists _, _. split; [eassumption|reflexivity].
Qed.

(** X14. At most one result is played for a search: in every state a run
    of the page reaches, the links clicked and the timers of a search
    still to fire are together no more than the navigations asked for; so
    the page never clicks a link it has not searched for. *)
Theorem at_most_one_play_per_search (u : jsstring) (vs : list Video)
    (es : list Event) (p : Page) :
  steps E (started u vs) es = Some p ->
  length (clicked p) + pending_plays p <= length (assigned_href p).
Proof.
  intros Hrun.
  apply (steps_preserves
           (fun p => length (clicked p) + pending_plays p <= length (assigned_href p)))
    with (es := es) (p := started u vs); [|exact Hrun|cbn; lia].
  apply (step_preserves
           (fun p => length (clicked p) + pending_plays p <= length (assigned_href p)));
    intros q; intros; try assumption.
  - rewrite updateStatus_clicked, updateStatus_pending_plays, updateStatus_assigned_href.
    assumption.
  - unfold pending_plays in *.
    cbn [setTimeout set_timers assign_href assigned_href clicked timers].
    rewrite List.filter_app, !length_app. simpl. lia.
  - pose proof (filter_delete_length isPlayFirstVideo _ _ _ H0) as Hd.
    unfold pending_plays in *. cbn [set_status set_timers clicked timers assigned_href].
    cbn [isPlayFirstVideo callback] in Hd. lia.
  - pose proof (filter_delete_length isPlayFirstVideo _ _ _ H0) as Hd.
    unfold pending_plays in *. cbn [set_timers clicked timers assigned_href].
    cbn [isPlayFirstVideo callback] in Hd. lia.
  - pose proof (filter_delete_length isPlayFirstVideo _ _ _ H0) as Hd.
    cbn [click clicked assigned_href].
    rewrite updateStatus_clicked, updateStatus_assigned_href, length_app.
    change (pending_plays (click v ?x)) with (pending_plays x).
    rewrite updateStatus_pending_plays.
    unfold pending_plays in *. cbn [set_timers clicked timers assigned_href].
    cbn [isPlayFirstVideo callback] in Hd. simpl. lia.
  - pose proof (filter_delete_length isPlayFirstVideo _ _ _ H0) as Hd.
    rewrite updateStatus_clicked, updateStatus_pending_plays, updateStatus_assigned_href.
    unfold pending_plays in *. cbn [set_timers clicked timers assigned_href].
    cbn [isPlayFirstVideo callback] in Hd. lia.
Qed.

(** X15. The arrow of the toggle tells whether the panel is shown: in
    every state a run of the page reaches, either the panel is hidden
    ([display: none]) and the toggle shows the arrow up, or the panel is
    shown (no [display] set, or [block]) and the toggle shows the arrow
    down.  A click on the toggle goes from the one to the other, Escape
    hides the panel, and K shows it and puts the focus in the input,
    unless it is pressed in an input or a text area, where it does
    nothing. *)
Theorem toggle_arrow_tells_the_panel (u : jsstring) (vs : list Video)
    (es : list Event) (p : Page) :
  steps E (started u vs) es = Some p ->
  ((content_display p = js "none" /\ toggle_textContent p = js "▲")
   \/ ((content_display p = [] \/ content_display p = js "block")
       /\ toggle_textContent p = js "▼"))
  /\ (content_display p = js "none" ->
      content_display (toggle_click p) = js "block"
      /\ toggle_textContent (toggle_click p) = js "▼")
  /\ (content_display p <> js "none" ->
      content_display (toggle_click p) = js "none"
      /\ toggle_textContent (toggle_click p) = js "▲")
  /\ (forall tagName,
        content_display (document_keydown (js "Escape") tagName p) = js "none"
        /\ toggle_textContent (document_keydown (js "Escape") tagName p) = js "▲")
  /\ (forall tagName,
        tagName <> js "INPUT" -> tagName <> js "TEXTAREA" ->
        content_display (document_keydown (js "k") tagName p) = js "block"
        /\ toggle_textContent (document_keydown (js "k") tagName p) = js "▼"
        /\ input_focused (document_keydown (js "k") tagName p) = true)
  /\ document_keydown (js "k") (js "INPUT") p = p
  /\ document_keydown (js "k") (js "TEXTAREA") p = p.
Proof.
  intros Hrun. split.
  - apply (steps_preserves
             (fun p =>
                (content_display p = js "none" /\ toggle_textContent p = js "▲")
                \/ ((content_display p = [] \/ content_display p = js "block")
                    /\ toggle_textContent p = js "▼")))
      with (es := es) (p := started u vs);
      [|exact Hrun|right; split; [left|]; reflexivity].
    apply (step_preserves
             (fun p =>
                (content_display p = js "none" /\ toggle_textContent p = js "▲")
                \/ ((content_display p = [] \/ content_display p = js "block")
                    /\ toggle_textContent p = js "▼")));
      intros q; intros;
      cbn [click setTimeout set_timers assign_href set_status set_panel
           set_input_value set_input_focused sendMessage set_document
           content_display toggle_textContent];
      rewrite ?updateStatus_content_display, ?updateStatus_toggle_textContent;
      cbn [set_timers content_display toggle_textContent];
      try match goal with H : ?G |- ?G => exact H end.
    + right. split; [right|]; reflexivity.
    + left. split; reflexivity.
  - unfold toggle_click. cbn [set_panel content_display toggle_textContent].
    split_and!.
    + intros Hd. rewrite bool_decide_true by exact Hd. split; reflexivity.
    + intros Hd. rewrite bool_decide_false by exact Hd. split; reflexivity.
    + intros tagName. unfold document_keydown.
      rewrite (bool_decide_true (js "Escape" = js "Escape")) by reflexivity.
      rewrite (bool_decide_false (js "Escape" = js "k")) by (vm_compute; discriminate).
      split; reflexivity.
    + intros tagName Hinput Harea. unfold document_keydown.
      rewrite (bool_decide_false (js "k" = js "Escape")) by (vm_compute; discriminate).
      rewrite (bool_decide_true (js "k" = js "k")) by reflexivity.
      rewrite (bool_decide_false (tagName = js "INPUT")) by assumption.
      rewrite (bool_decide_false (tagName = js "TEXTAREA")) by assumption.
      split_and!; reflexivity.
    + unfold document_keydown.
      rewrite (bool_decide_false (js "k" = js "Escape")) by (vm_compute; discriminate).
      rewrite (bool_decide_true (js "INPUT" = js "INPUT")) by reflexivity.
      rewrite andb_comm. reflexivity.
    + unfold document_keydown.
      rewrite (bool_decide_false (js "k" = js "Escape")) by (vm_compute; discriminate).
      rewrite (bool_decide_true (js "TEXTAREA" = js "TEXTAREA")), orb_true_r by reflexivity.
      rewrite andb_comm. reflexivity.
Qed.

(** X16. What the timer of a search does when it fires: in a document that
    shows no result link it clicks nothing and reports no error, the page
    being left as it was but for the timer; in a document that shows some,
    it clicks the first of them and no other, and the status line shows
    [Playing: ] and the text of that link, as a success. *)
Theorem play_timer_clicks_the_first_link_shown (p : Page) (n : nat) :
  timers p !! n = Some {| callback := PlayFirstVideo; delay := 1500 |} ->
  exists p',
    step E p (Fired n) = Some p'
    /\ sent p' = sent p
    /\ assigned_href p' = assigned_href p
    /\ match videos p with
       | [] => p' = set_timers (delete n (timers p)) p
       | firstVideo :: _ =>
           clicked p' = clicked p ++ [firstVideo]
           /\ status_textContent p' = js "Playing: " ++ textContent firstVideo
           /\ status_className p' = js "yt-ai-status success"
       end.
Proof.
  intros Hn. destruct status_classes as (_ & Hsuccess & _).
  cbn [step]. rewrite Hn. eexists. split; [reflexivity|].
  cbn [callback run_callback]. change (videos (set_timers ?ts p)) with (videos p).
  destruct (videos p) as [|v vs'].
  - split_and!; reflexivity.
  - cbn [click sent assigned_href clicked status_textContent status_className].
    rewrite updateStatus_sent, updateStatus_assigned_href, updateStatus_clicked,
      updateStatus_status_textContent, updateStatus_status_className, Hsuccess.
    split_and!; reflexivity.
Qed.

(** *** The address of a search *)

Local Open Scope N_scope.

Lemma hexDigit_unreserved (d : N) : d < 16 -> isUnreserved (hexDigit true d) = true.
Proof.
  intros Hd. unfold hexDigit, isUnreserved.
  destruct (d <? 10) eqn:Hlt.
  - apply N.ltb_lt in Hlt.
    apply orb_true_intro. left. apply orb_true_intro. right.
    apply andb_true_intro. split; apply N.leb_le; lia.
  - apply N.ltb_ge in Hlt.
    apply orb_true_intro. left. apply orb_true_intro. left. apply orb_true_intro. left.
    apply andb_true_intro. split; apply N.leb_le; lia.
Qed.

Lemma percent_safe (byte : N) :
  byte < 256 -> Forall (fun c => isUnreserved c = true \/ c = 0x25) (percent byte).
Proof.
  intros Hb. unfold percent.
  apply Forall_cons. split; [right; reflexivity|].
  apply Forall_cons. split.
  { left. apply hexDigit_unreserved. apply N.Div0.div_lt_upper_bound. lia. }
  apply Forall_cons. split; [|constructor].
  left. apply hexDigit_unreserved. apply N.mod_lt. lia.
Qed.

Lemma utf8_encode_bytes (cp : N) :
  cp < 0x110000 -> Forall (fun byte => byte < 256) (utf8_encode cp).
Proof.
  intros Hcp. unfold utf8_encode.
  repeat match goal with
         | |- context [?a <? ?b] =>
             let H := fresh in destruct (a <? b) eqn:H;
             [apply N.ltb_lt in H | apply N.ltb_ge in H]
         end;
    repeat (apply Forall_cons; split); try apply Forall_nil;
    repeat match goal with
           | |- context [?a mod 0x40] =>
               let H := fresh in
               pose proof (N.mod_lt a 0x40 ltac:(lia)) as H;
               generalize dependent (a mod 0x40); intros
           end;
    try lia.
  - assert (cp / 0x40 < 0x20) by (apply N.Div0.div_lt_upper_bound; lia). lia.
  - assert (cp / 0x1000 < 0x10) by (apply N.Div0.div_lt_upper_bound; lia). lia.
  - assert (cp / 0x40000 < 0x8) by (apply N.Div0.div_lt_upper_bound; lia). lia.
Qed.

Lemma escape_safe (cp : N) :
  cp < 0x110000 -> Forall (fun c => isUnreserved c = true \/ c = 0x25) (escape cp).
Proof.
  intros Hcp. unfold escape. destruct (isUnreserved cp) eqn:Hu.
  - apply Forall_cons. split; [by left|constructor].
  - pose proof (utf8_encode_bytes cp Hcp) as Hbytes.
    induction Hbytes as [|b bs Hb _ IH]; [constructor|].
    cbn [flat_map]. apply Forall_app. split; [by apply percent_safe | exact IH].
Qed.

Lemma encodeURIComponent_safe (n : nat) (s e : jsstring) :
  (length s <= n)%nat ->
  Forall (fun c => c < 0x10000) s ->
  encodeURIComponent s = Some e ->
  Forall (fun c => isUnreserved c = true \/ c = 0x25) e.
Proof.
  revert s e. induction n as [|n IH]; intros s e Hlen Hs Henc.
  { destruct s; [|simpl in Hlen; lia]. injection Henc as <-. constructor. }
  destruct s as [|c r]; [injection Henc as <-; constructor|].
  simpl in Hlen. apply Forall_cons in Hs as [Hc Hr]. simpl in Henc.
  destruct (isHighSurrogate c) eqn:Hhigh.
  - destruct r as [|d r']; [done|]. destruct (isLowSurrogate d) eqn:Hlow; [|done].
    destruct (encodeURIComponent r') as [e'|] eqn:He'; [|done].
    injection Henc as <-. apply Forall_cons in Hr as [Hd Hr'].
    apply Forall_app. split.
    + apply escape_safe. unfold isHighSurrogate, isLowSurrogate in *.
      apply andb_true_iff in Hhigh as [H1 H2], Hlow as [H3 H4].
      apply N.leb_le in H1, H2, H3, H4. lia.
    + apply (IH r' e'); [simpl in Hlen; lia|done|done].
  - destruct (isLowSurrogate c); [done|].
    destruct (encodeURIComponent r) as [e'|] eqn:He'; [|done].
    injection Henc as <-. apply Forall_app. split.
    + apply escape_safe. lia.
    + apply (IH r e'); [lia|done|done].
Qed.

(** X17. The address of a search holds the query and nothing that could
    end it: for a query of 16-bit code units that [encodeURIComponent]
    accepts, [searchAndPlayYouTube] asks for the address of the results
    page followed by the encoded query, in which every code unit is a
    letter, a digit, one of [-_.!~*'()] or the percent sign of an escape:
    no [&], [=], [#], [?], [/], [+] or space of the query can add to the
    address or cut it short. *)
Theorem search_address_is_safe (q e : jsstring) (p : Page) :
  Forall (fun c => c < 0x10000) q ->
  encodeURIComponent q = Some e ->
  assigned_href (snd (searchAndPlayYouTube E (VStr q) p))
  = assigned_href p ++ [results_url e]
  /\ Forall (fun c => isUnreserved c = true \/ c = 0x25) e
  /\ Forall (fun c => c ∉ js "&=#?/+ ") e.
Proof.
  intros Hq Henc.
  pose proof (encodeURIComponent_safe (length q) q e (le_n _) Hq Henc) as Hsafe.
  split_and!.
  - unfold searchAndPlayYouTube, bind, lift, gets, modify, ToString_or_throw.
    cbn [ToString]. rewrite Henc. by destruct (includes _ _).
  - exact Hsafe.
  - eapply Forall_impl; [exact Hsafe|]. intros c Hc Hin.
    assert (js "&=#?/+ " = [38; 61; 35; 63; 47; 43; 32]) as Heq by (vm_compute; reflexivity).
    rewrite Heq in Hin. clear Heq.
    repeat (apply elem_of_cons in Hin as [->|Hin];
            [destruct Hc as [Hc|Hc]; [vm_compute in Hc; discriminate Hc | discriminate Hc]|]).
    by apply elem_of_nil in Hin.
Qed.

Local Close Scope N_scope.

(** *** Starting up *)

(** X18. [waitForYouTube] resolves at the first run of its interval's
    callback that finds the [ytd-app] element, and then stops: after [k]
    runs that did not find it, the run that does is the last, whatever the
    document holds later; and while no run has found it the promise is
    pending. *)
Theorem waitForYouTube_resolves_at_first_sight (polls : list bool) :
  match waitForYouTube polls with
  | Some runs =>
      exists later, polls = repeat false (runs - 1) ++ true :: later /\ (1 <= runs)%nat
  | None => polls = repeat false (length polls)
  end
  /\ (forall k later, waitForYouTube (repeat false k ++ true :: later) = Some (S k))
  /\ (forall k, waitForYouTube (repeat false k) = None).
Proof.
  split_and!.
  - induction polls as [|[] polls IH]; [done| |].
    + exists polls. split; [done|]. simpl. lia.
    + simpl. destruct (waitForYouTube polls) as [runs|].
      * destruct IH as (later & -> & Hruns). exists later. simpl. split; [|lia].
        destruct runs as [|runs]; [lia|]. simpl. by rewrite Nat.sub_0_r.
      * simpl. by rewrite <- IH.
  - intros k later. induction k as [|k IH]; [done|]. simpl. by rewrite IH.
  - intros k. induction k as [|k IH]; [done|]. simpl. by rewrite IH.
Qed.

(** *** The extension: requests and commands *)

Lemma occurs_preserves (P : Extension -> Prop) :
  (forall x o x', occur E x o = Some x' -> P x -> P x') ->
  forall l x x', occurs E x l = Some x' -> P x -> P x'.
Proof.
  intros Hstep l. induction l as [|o l IH]; intros x x' Hrun Hx; simpl in Hrun.
  - by injection Hrun as <-.
  - destruct (occur E x o) as [x1|] eqn:Ho; [|done]. eauto.
Qed.

(** No event takes a message back. *)
Lemma step_sent_grows (p p' : Page) (e : Event) :
  step E p e = Some p' -> exists new, sent p' = sent p ++ new.
Proof.
  intros Hstep.
  apply (step_preserves (fun q => exists new, sent q = sent p ++ new)) with (p := p) (e := e);
    [..|exact Hstep|exists []; by rewrite app_nil_r];
    intros q; intros;
    cbn [click setTimeout set_timers assign_href set_status set_panel
         set_input_value set_input_focused sendMessage set_document sent];
    rewrite ?updateStatus_sent; cbn [set_timers sent];
    try match goal with H : ?G |- ?G => exact H end.
  destruct H as [new ->]. eexists. by rewrite <- app_assoc.
Qed.

Lemma receive_handled (n : nat) (up : Upstream) (x x' : Extension) :
  receive E n up x = Some x' ->
  exists m,
    sent (page x) !! n = Some m
    /\ (n ∉ handled x)
    /\ page x' = page x
    /\ network x' = snd (answer E up m (network x))
    /\ handled x' = {[n]} ∪ handled x.
Proof.
  unfold receive, handled. destruct (sent (page x) !! n) as [m|]; [|done].
  destruct (answers x !! n) eqn:Hn; [done|]. case_bool_decide as Hs; [done|].
  destruct (answer E up m (network x)) as [outcome log] eqn:Ha.
  intros [= <-]. exists m. rewrite Ha. cbn [page network answers settled snd].
  split_and!; [done| |done|done|].
  - apply not_elem_of_union. split; [by apply not_elem_of_dom|done].
  - rewrite dom_insert_L. by rewrite (assoc_L (∪)).
Qed.

(** The messages handled are messages sent, the requests made are no more
    than the messages handled, and each is the request of a command
    sent. *)
Lemma occur_requests (x x' : Extension) (o : Occurrence) :
  occur E x o = Some x' ->
  consistent x ->
  (length (network x) <= size (handled x)
   /\ (forall n, n ∈ handled x -> n < length (sent (page x)))
   /\ Forall (fun r => exists apiKey m,
                         m ∈ sent (page x) /\ r = api_request apiKey (command m))
             (network x)) ->
  length (network x') <= size (handled x')
  /\ (forall n, n ∈ handled x' -> n < length (sent (page x')))
  /\ Forall (fun r => exists apiKey m,
                        m ∈ sent (page x') /\ r = api_request apiKey (command m))
            (network x').
Proof.
  intros Ho [Hwt _] (Hlen & Hlt & Hreq).
  destruct o as [e|n up|n|n msg]; cbn [occur] in Ho.
  - assert (exists p', step E (page x) e = Some p' /\ page x' = p'
                       /\ network x' = network x /\ handled x' = handled x)
      as (p' & Hs & Hp & Hn & Hh).
    { destruct e; try done; destruct (step E (page x) _) eqn:Hs;
        cbn in Ho; simplify_eq; eauto. }
    destruct (step_sent_grows _ _ _ Hs) as [new Hnew].
    rewrite Hp, Hn, Hh, Hnew. split_and!; [done| |].
    + intros k Hk. rewrite length_app. apply Hlt in Hk. lia.
    + eapply Forall_impl; [exact Hreq|]. intros r (k & m & Hm & ->).
      exists k, m. split; [|done]. apply elem_of_app. by left.
  - apply receive_handled in Ho as (m & Hm & Hfresh & Hp & Hn & Hh).
    assert (type m = js "PROCESS_COMMAND") as Htype.
    { unfold well_typed in Hwt. rewrite Forall_lookup in Hwt. by eapply Hwt. }
    rewrite answer_processCommand in Hn by done.
    rewrite Hh, Hp, Hn. split_and!.
    + rewrite size_union by (by apply disjoint_singleton_l). rewrite size_singleton.
      destruct (at_most_one_request E up (command m) (network x)) as [-> | [k ->]];
        [lia|]. rewrite length_app. simpl. lia.
    + intros k Hk. apply elem_of_union in Hk as [Hk|Hk]; [|by apply Hlt].
      apply elem_of_singleton in Hk as ->. by eapply lookup_lt_Some.
    + destruct (at_most_one_request E up (command m) (network x)) as [-> | [k ->]];
        [done|]. apply Forall_app. split; [done|]. constructor; [|constructor].
      exists k, m. split; [|done]. by eapply list_elem_of_lookup_2.
  - destruct (answers x !! n) as [outcome|] eqn:Hn; [|done]. injection Ho as <-.
    cbn [settle page network]. rewrite (proj1 (handleCommand_resume_frame E outcome (page x))).
    assert (handled (settle E n outcome x) = handled x) as ->.
    { unfold handled. cbn [settle answers settled]. rewrite dom_delete_L.
      apply elem_of_dom_2 in Hn. apply set_eq. intros k.
      rewrite !elem_of_union, elem_of_difference, elem_of_singleton.
      destruct (decide (k = n)) as [->|Hne]; tauto. }
    done.
  - destruct (sent (page x) !! n) eqn:Hn; [|done]. case_bool_decide; [done|].
    injection Ho as <-.
    cbn [settle page network].
    rewrite (proj1 (handleCommand_resume_frame E (Throw msg) (page x))).
    assert (handled (settle E n (Throw msg) x) = {[n]} ∪ handled x) as ->.
    { unfold handled. cbn [settle answers settled]. rewrite dom_delete_L.
      apply set_eq. intros k.
      rewrite !elem_of_union, elem_of_difference, elem_of_singleton.
      destruct (decide (k = n)) as [->|Hne]; tauto. }
    split_and!; [|intros k Hk|done].
    + etrans; [exact Hlen|]. apply subseteq_size. apply union_subseteq_r.
    + apply elem_of_union in Hk as [Hk|Hk]; [|by apply Hlt].
      apply elem_of_singleton in Hk as ->. by eapply lookup_lt_Some.
Qed.

(** X19. The extension never calls the model more often than commands were
    sent to it, and never for anything else: in every state it reaches,
    the requests on the network are no more than the messages handled,
    which are no more than the messages the page has sent, and every
    request is the request that [processCommand] makes for the command of
    a message the page has sent. *)
Theorem requests_never_exceed_commands (u : jsstring) (vs : list Video)
    (l : list Occurrence) (x : Extension) :
  occurs E (initialize u vs) l = Some x ->
  length (network x) <= size (handled x)
  /\ size (handled x) <= length (sent (page x))
  /\ Forall (fun r => exists apiKey m,
                        m ∈ sent (page x) /\ r = api_request apiKey (command m))
            (network x).
Proof.
  intros Hrun.
  assert (consistent x
          /\ length (network x) <= size (handled x)
          /\ (forall n, n ∈ handled x -> n < length (sent (page x)))
          /\ Forall (fun r => exists apiKey m,
                                m ∈ sent (page x) /\ r = api_request apiKey (command m))
                    (network x)) as (_ & Hlen & Hlt & Hreq).
  { apply (occurs_preserves
             (fun x => consistent x
                       /\ length (network x) <= size (handled x)
                       /\ (forall n, n ∈ handled x -> n < length (sent (page x)))
                       /\ Forall (fun r => exists apiKey m,
                                             m ∈ sent (page x)
                                             /\ r = api_request apiKey (command m))
                                 (network x)))
      with (l := l) (x := initialize u vs); [|exact Hrun|].
    - intros y o y' Ho [Hc Hy]. split; [by eapply occur_consistent|].
      by eapply occur_requests.
    - split; [apply initialize_consistent|]. unfold handled.
      cbn [initialize network answers settled]. rewrite dom_empty_L, union_empty_l_L.
      split_and!; [rewrite size_empty; simpl; lia| |constructor].
      intros n Hn. by apply elem_of_empty in Hn. }
  split_and!; [done| |done].
  rewrite <- (size_set_seq (C := gset nat) 0 (length (sent (page x)))).
  apply subseteq_size. intros n Hn. apply elem_of_set_seq. split; [lia|].
  simpl. by apply Hlt.
Qed.


End ContentFurther.

(** *** The first result of a search *)

Section FirstResult.
Import Content Sample.

(** C5. The command [play lofi hip hop], typed on the home page and
    answered with the query [lofi hip hop]: the page asks for the
    navigation to the search of the query and sets the timer that is to
    play the first result in the document it runs in, the home page.  The
    results are shown in another document, in which the script starts anew:
    whatever happens there, as long as no new command is sent, no link is
    clicked, so the first result of the search is not played.  The timer
    fires, if at all, in the document of the command: on the home page it
    finds no link, clicks nothing and leaves the status as it is; on a
    page that shows the results of an earlier search it clicks the first
    of these. *)
Theorem searched_result_is_not_played :
  exists asked : Extension,
    occurs engine home
      [ OnPage (Typed (js "play lofi hip hop")); OnPage SendClicked;
        Received 0 (replying (js "lofi hip hop")); Delivered 0 ] = Some asked
    /\ assigned_href (page asked)
       = [js "https://www.youtube.com/results?search_query=lofi%20hip%20hop"]
    /\ timers (page asked) !! 2 = Some {| callback := PlayFirstVideo; delay := 1500 |}
    /\ commit_navigation [first_link; second_link] (page asked)
       = Some (started (js "https://www.youtube.com/results?search_query=lofi%20hip%20hop")
                 [first_link; second_link])
    /\ (forall es p,
          steps engine
            (started (js "https://www.youtube.com/results?search_query=lofi%20hip%20hop")
               [first_link; second_link]) es = Some p ->
          sent p = [] -> clicked p = [])
    /\ (exists p,
          step engine (page asked) (Fired 2) = Some p
          /\ clicked p = []
          /\ status_textContent p = status_textContent (page asked)
          /\ status_className p = status_className (page asked))
    /\ exists asked' p',
         occurs engine earlier_results
           [ OnPage (Typed (js "play lofi hip hop")); OnPage SendClicked;
             Received 0 (replying (js "lofi hip hop")); Delivered 0 ] = Some asked'
         /\ timers (page asked') !! 2
            = Some {| callback := PlayFirstVideo; delay := 1500 |}
         /\ step engine (page asked') (Fired 2) = Some p'
         /\ clicked p' = [earlier_link]
         /\ status_textContent p' = js "Playing: Take Five".
Proof.
  eexists. split; [vm_compute; reflexivity|].
  split; [vm_compute; reflexivity|].
  split; [vm_compute; reflexivity|].
  split; [vm_compute; reflexivity|].
  split.
  { intros es p Hrun Hsent.
    exact (proj1 (nothing_clicked_without_command engine _ _ es p Hrun Hsent)). }
  split.
  { eexists. split; [vm_compute; reflexivity|].
    split; [vm_compute; reflexivity|]. split; vm_compute; reflexivity. }
  eexists _, _. split; [vm_compute; reflexivity|].
  split; [vm_compute; reflexivity|].
  split; [vm_compute; reflexivity|]. split; vm_compute; reflexivity.
Qed.

End FirstResult.

(** *** The further properties at concrete inputs *)

Section FurtherExamples.
Import Content Sample.

(** The state a concrete run ends in, for a goal that asks for one. *)
Ltac run_it :=
  match goal with
  | |- exists p, ?run = Some p /\ _ =>
      let r := eval vm_compute in run in
      match r with
      | Some ?x => exists x; split; [vm_compute; reflexivity|]
      end
  end.

(** The conversion to a string, of arrays and of objects. *)
Example ToString_examples :
  ToString (VArr [VNum 1%float; VNull; VStr (js "a"); VArr [VBool true; VUndefined]])
  = Some (js "1,,a,true,")
  /\ ToString (VObj [(js "valueOf", VNull)]) = Some (js "[object Object]")
  /\ ToString (VObj [(js "toString", VNull)]) = None
  /\ ToString (VArr [VObj [(js "toString", VStr (js "x"))]]) = None.
Proof. split_and!; vm_compute; reflexivity. Qed.

Lemma command_is_sent_trimmed_witness :
  sent (sendBtn_click (set_input_value (js "  play jazz ") results_page))
  = sent (set_input_value (js "  play jazz ") results_page)
    ++ [{| type := js "PROCESS_COMMAND";
           command := trim (input_value (set_input_value (js "  play jazz ") results_page)) |}]
  /\ trim (input_value (set_input_value (js "  play jazz ") results_page)) = js "play jazz".
Proof.
  split; [|vm_compute; reflexivity].
  apply (command_is_sent_trimmed (set_input_value (js "  play jazz ") results_page)).
  vm_compute. discriminate.
Defined.

Lemma suggestion_is_typed_and_sent_witness :
  step engine results_page (SuggestionClicked 2)
  = Some (sendBtn_click (set_input_value (js "play jazz") results_page)).
Proof.
  apply (suggestion_is_typed_and_sent engine 2 (js "play jazz") results_page).
  reflexivity.
Defined.

Lemma sent_commands_are_never_blank_witness :
  exists p,
    steps engine results_page session = Some p
    /\ Forall (fun m => type m = js "PROCESS_COMMAND"
                        /\ command m <> [] /\ trim (command m) = command m)
              (sent p).
Proof.
  run_it.
  apply (sent_commands_are_never_blank engine
           (js "https://www.youtube.com/results?search_query=lofi")
           [first_link; second_link] session).
  vm_compute. reflexivity.
Defined.

Lemma status_reset_is_always_pending_witness :
  exists p,
    steps engine results_page session = Some p
    /\ (status_className p = js "yt-ai-status success"
        \/ status_className p = js "yt-ai-status error" ->
        {| callback := ResetStatus; delay := 5000 |} ∈ timers p).
Proof.
  run_it.
  apply (status_reset_is_always_pending engine
           (js "https://www.youtube.com/results?search_query=lofi")
           [first_link; second_link] session).
  vm_compute. reflexivity.
Defined.

Lemma page_navigates_to_searches_only_witness :
  exists p,
    steps engine results_page session = Some p
    /\ Forall (fun address =>
                 exists q e, encodeURIComponent q = Some e /\ address = results_url e)
              (assigned_href p).
Proof.
  run_it.
  apply (page_navigates_to_searches_only engine
           (js "https://www.youtube.com/results?search_query=lofi")
           [first_link; second_link] session).
  vm_compute. reflexivity.
Defined.

Lemma at_most_one_play_per_search_witness :
  exists p,
    steps engine results_page session = Some p
    /\ length (clicked p) + pending_plays p <= length (assigned_href p).
Proof.
  run_it.
  apply (at_most_one_play_per_search engine
           (js "https://www.youtube.com/results?search_query=lofi")
           [first_link; second_link] session).
  vm_compute. reflexivity.
Defined.

Lemma toggle_arrow_tells_the_panel_witness :
  exists p,
    steps engine results_page session = Some p
    /\ ((content_display p = js "none" /\ toggle_textContent p = js "▲")
        \/ ((content_display p = [] \/ content_display p = js "block")
            /\ toggle_textContent p = js "▼")).
Proof.
  run_it.
  apply (toggle_arrow_tells_the_panel engine
           (js "https://www.youtube.com/results?search_query=lofi")
           [first_link; second_link] session).
  vm_compute. reflexivity.
Defined.

Lemma play_timer_clicks_the_first_link_shown_witness :
  exists p',
    step engine (setTimeout PlayFirstVideo 1500 results_page) (Fired 1) = Some p'
    /\ clicked p' = [first_link].
Proof.
  destruct (play_timer_clicks_the_first_link_shown engine
              (setTimeout PlayFirstVideo 1500 results_page) 1 eq_refl)
    as (p' & Hstep & _ & _ & Hclicked & _).
  exists p'. split; [exact Hstep | exact Hclicked].
Defined.

Lemma search_address_is_safe_witness :
  Forall (fun c => c ∉ js "&=#?/+ ") (js "rock%20%26%20roll%20%F0%9F%8E%B8").
Proof.
  apply (search_address_is_safe engine (js "rock & roll 🎸")
           (js "rock%20%26%20roll%20%F0%9F%8E%B8") results_page).
  - apply (bool_decide_unpack _). vm_compute. exact I.
  - vm_compute. reflexivity.
Defined.

Lemma requests_never_exceed_commands_witness :
  exists x,
    occurs engine home exchange = Some x
    /\ length (network x) <= size (handled x)
    /\ size (handled x) <= length (sent (page x)).
Proof.
  run_it.
  match goal with
  | |- length (network ?x) <= _ /\ _ =>
      destruct (requests_never_exceed_commands engine (js "https://www.youtube.com/") []
                  exchange x ltac:(vm_compute; reflexivity)) as (H1 & H2 & _)
  end.
  split; [exact H1 | exact H2].
Defined.

End FurtherExamples.
